(** * copairs: the pair-matching engine of [copairs/matching.py]

    A shallow embedding of [reverse_index], [Matcher] and
    [MatcherMultilabel], followed by the properties of the engine.

    Conventions of the embedding.
    - A cell of the data frame is [option value]: [None] is the null (NaN)
      cell, for which [pd.isna] holds and which is equal to nothing, itself
      included.
    - A Python [set] of row identifiers is the strictly ascending list of its
      elements.  The order in which Python iterates over a set is not part of
      the language; it is the parameter [set_iter] of the runtime, about
      which only [set_iter_perm] is known.
    - A Python [dict] is an association list in insertion order.
    - A raised exception is a value [Raise e]; the exception carries its
      class and its message. *)

From Stdlib Require Import String Ascii ZArith Bool Arith Lia.
From Stdlib Require Import QArith Qround.
From Stdlib Require Import List Permutation.
Import ListNotations.
Local Open Scope nat_scope.

Set Implicit Arguments.

(** ** Exceptions and results *)

Inductive exn : Type :=
| ValueError (msg : string)
| KeyError (msg : string)
| TypeError (msg : string)
| IndexError (msg : string)
| UnpairedException (msg : string)
| StopIteration.

Inductive result (A : Type) : Type :=
| Ok (a : A)
| Raise (e : exn).
Arguments Ok {A} a.
Arguments Raise {A} e.

Definition bind {A B : Type} (r : result A) (f : A -> result B) : result B :=
  match r with
  | Ok a => f a
  | Raise e => Raise e
  end.

Notation "x <- r ;; k" := (bind r (fun x => k))
  (at level 61, r at next level, right associativity).

(** [for x in xs: acc = body(acc, x)], where the body may raise. *)
Fixpoint foldM {A B : Type} (body : A -> B -> result A) (xs : list B) (acc : A)
  : result A :=
  match xs with
  | [] => Ok acc
  | x :: xs' => acc' <- body acc x ;; foldM body xs' acc'
  end.

Fixpoint mapM {A B : Type} (f : A -> result B) (xs : list A) : result (list B) :=
  match xs with
  | [] => Ok []
  | x :: xs' => y <- f x ;; ys <- mapM f xs' ;; Ok (y :: ys)
  end.

(** ** Cell values *)

Inductive value : Type :=
| VInt (z : Z)
| VStr (s : string).

Definition cell : Type := option value.

Definition value_eqb (a b : value) : bool :=
  match a, b with
  | VInt x, VInt y => Z.eqb x y
  | VStr x, VStr y => String.eqb x y
  | _, _ => false
  end.

Lemma value_eqb_eq (a b : value) : value_eqb a b = true <-> a = b.
Proof.
  destruct a as [x|x], b as [y|y]; simpl; split; intro H;
    try discriminate; try congruence.
  - apply Z.eqb_eq in H. now subst.
  - injection H as ->. apply Z.eqb_refl.
  - apply String.eqb_eq in H. now subst.
  - injection H as ->. apply String.eqb_refl.
Qed.

Lemma value_eqb_refl (a : value) : value_eqb a a = true.
Proof. now apply value_eqb_eq. Qed.

Lemma value_eqb_neq (a b : value) : value_eqb a b = false <-> a <> b.
Proof.
  split.
  - intros H E. apply value_eqb_eq in E. congruence.
  - intro H. destruct (value_eqb a b) eqn:E; [|reflexivity].
    apply value_eqb_eq in E. contradiction.
Qed.

(** [pd.isna(val)] *)
Definition isna (c : cell) : bool :=
  match c with None => true | Some _ => false end.

(** Elementwise [==] of numpy on two cells: a null cell equals nothing. *)
Definition cell_eq (a b : cell) : bool :=
  match a, b with
  | Some x, Some y => value_eqb x y
  | _, _ => false
  end.

(** Structural equality of cells, used for the keys of a dict only. *)
Definition cell_eqb (a b : cell) : bool :=
  match a, b with
  | Some x, Some y => value_eqb x y
  | None, None => true
  | _, _ => false
  end.

(** The order in which pandas sorts the categories of a column. *)
Definition value_ltb (a b : value) : bool :=
  match a, b with
  | VInt x, VInt y => Z.ltb x y
  | VStr x, VStr y => String.ltb x y
  | _, _ => false
  end.

Definition is_int (v : value) : bool :=
  match v with VInt _ => true | VStr _ => false end.

(** A column can be sorted when its values are all integers or all strings;
    comparing an integer with a string raises in Python. *)
Definition sortable (vs : list value) : bool :=
  forallb is_int vs || forallb (fun v => negb (is_int v)) vs.

(** ** Dicts: association lists in insertion order *)

Section Dict.
Variables K V : Type.
Variable eqb : K -> K -> bool.

Fixpoint dict_get (k : K) (d : list (K * V)) : option V :=
  match d with
  | [] => None
  | (k', v) :: d' => if eqb k k' then Some v else dict_get k d'
  end.

(** [d[k] = v]: an existing key keeps its place. *)
Fixpoint dict_set (k : K) (v : V) (d : list (K * V)) : list (K * V) :=
  match d with
  | [] => [(k, v)]
  | (k', v') :: d' =>
      if eqb k k' then (k', v) :: d' else (k', v') :: dict_set k v d'
  end.

Definition dict_keys (d : list (K * V)) : list K := map fst d.
Definition dict_values (d : list (K * V)) : list V := map snd d.
End Dict.

(** [d.setdefault(k, list()).append(x)] *)
Fixpoint dict_append {K X : Type} (eqb : K -> K -> bool) (k : K) (x : X)
  (d : list (K * list X)) : list (K * list X) :=
  match d with
  | [] => [(k, [x])]
  | (k', xs) :: d' =>
      if eqb k k' then (k', xs ++ [x]) :: d'
      else (k', xs) :: dict_append eqb k x d'
  end.

(** ** Sets of row identifiers: strictly ascending lists *)

Definition rowset : Type := list nat.

Definition mem (x : nat) (s : rowset) : bool := existsb (Nat.eqb x) s.

Fixpoint set_add (x : nat) (s : rowset) : rowset :=
  match s with
  | [] => [x]
  | y :: s' =>
      if x <? y then x :: s
      else if x =? y then s
      else y :: set_add x s'
  end.

(** [set(elems)] *)
Definition set_of_list (l : list nat) : rowset := fold_right set_add [] l.

(** [a - b] *)
Definition set_diff (a b : rowset) : rowset :=
  filter (fun x => negb (mem x b)) a.

(** [a & b] *)
Definition set_inter (a b : rowset) : rowset :=
  filter (fun x => mem x b) a.

(** [set.intersection] applied to the unpacked list [mapped]: the unbound
    method needs its first argument, so the call raises on an empty list. *)
Definition set_intersection (mapped : list rowset) : result rowset :=
  match mapped with
  | [] => Raise (TypeError "unbound method set.intersection() needs an argument")
  | s :: rest => Ok (fold_left set_inter rest s)
  end.

(** ** Pairs of row identifiers and the numpy operations on arrays of pairs *)

Definition rowpair : Type := (nat * nat)%type.

Definition pair_eqb (p q : rowpair) : bool :=
  (fst p =? fst q) && (snd p =? snd q).

Definition pair_ltb (p q : rowpair) : bool :=
  (fst p <? fst q) || ((fst p =? fst q) && (snd p <? snd q)).

Fixpoint insert_uniq (p : rowpair) (l : list rowpair) : list rowpair :=
  match l with
  | [] => [p]
  | q :: l' =>
      if pair_ltb p q then p :: l
      else if pair_eqb p q then l
      else q :: insert_uniq p l'
  end.

(** [np.unique(pairs, axis=0)]: the distinct rows in lexicographic order.
    The same list is [sorted(set(pairs), key=lambda x: (x[0], x[1]))]. *)
Definition np_unique (l : list rowpair) : list rowpair := fold_right insert_uniq [] l.

(** [np.sort(pairs)] sorts along the last axis, that is inside each row. *)
Definition np_sort_rows (l : list rowpair) : list rowpair :=
  map (fun p => (Nat.min (fst p) (snd p), Nat.max (fst p) (snd p))) l.

(** [itertools.combinations(xs, 2)] *)
Fixpoint combinations2 {A : Type} (xs : list A) : list (A * A) :=
  match xs with
  | [] => []
  | x :: xs' => map (fun y => (x, y)) xs' ++ combinations2 xs'
  end.

(** [itertools.product(xs, ys)] *)
Definition product {A B : Type} (xs : list A) (ys : list B) : list (A * B) :=
  flat_map (fun x => map (fun y => (x, y)) ys) xs.

(** A stable sort by a natural key: [sorted(xs, key=key)]. *)
Fixpoint insert_by {A : Type} (key : A -> nat) (x : A) (l : list A) : list A :=
  match l with
  | [] => [x]
  | y :: l' => if key x <=? key y then x :: l else y :: insert_by key x l'
  end.

Definition sort_by {A : Type} (key : A -> nat) (l : list A) : list A :=
  fold_right (insert_by key) [] l.

Fixpoint nodupb (l : list string) : bool :=
  match l with
  | [] => true
  | x :: l' => negb (existsb (String.eqb x) l') && nodupb l'
  end.

(** ** The runtime the engine runs on

    Three facts about Python and numpy that the source relies on and does
    not fix itself. *)

Record PyRuntime : Type := {
  (** the order in which [for x in s] visits a set of row identifiers *)
  set_iter : rowset -> list nat;
  set_iter_perm : forall s, Permutation (set_iter s) s;
  (** what [array == other] gives inside [other in array] when the two
      shapes do not broadcast: [False] before numpy 1.25, a [ValueError]
      since *)
  array_eq_mismatch : result bool;
  (** the names [namedtuple] accepts as field names: identifiers that are
      neither keywords nor start with an underscore *)
  is_field_name : string -> bool
}.

(** ** The random generator of numpy

    [np.random.default_rng(seed)] and the two draws the source makes:
    [rng.uniform], one double in the interval from 0 (included) to 1
    (excluded) per element, and the bounded integers with which
    [rng.choice(elems, size)] picks its indices.  The bit generator itself
    belongs to numpy. *)

Record NumpyRng : Type := {
  bitgen : Type;
  default_rng : Z -> bitgen;
  next_double : bitgen -> Q * bitgen;
  next_double_range :
    forall g, (0 <= fst (next_double g))%Q /\ (fst (next_double g) < 1)%Q;
  next_bounded : bitgen -> nat -> nat * bitgen;
  next_bounded_lt : forall g n, 0 < n -> fst (next_bounded g n) < n
}.

(** ** Data frames and the reverse index *)

Record DataFrame : Type := {
  df_columns : list string;
  df_rows : list (list cell)
}.

Fixpoint index_of (c : string) (cols : list string) : option nat :=
  match cols with
  | [] => None
  | c' :: cols' =>
      if String.eqb c c' then Some 0
      else option_map S (index_of c cols')
  end.

(** [dframe[columns].reset_index(drop=True)]: the rows restricted to
    [columns], in that order; a missing column is a [KeyError]. *)
Definition select_columns (dframe : DataFrame) (columns : list string)
  : result (list (list cell)) :=
  ixs <- mapM (fun c =>
                 match index_of c (df_columns dframe) with
                 | Some i => Ok i
                 | None => Raise (KeyError c)
                 end) columns ;;
  Ok (map (fun row => map (fun i => nth i row None) ixs) (df_rows dframe)).

(** The column of index [i] of a table of rows. *)
Definition column_at (i : nat) (rows : list (list cell)) : list cell :=
  map (fun row => nth i row None) rows.

(** The positions of the rows of a column that hold [v]. *)
Fixpoint positions_from (start : nat) (v : value) (col : list cell) : list nat :=
  match col with
  | [] => []
  | c :: col' =>
      if cell_eq c (Some v) then start :: positions_from (S start) v col'
      else positions_from (S start) v col'
  end.

Definition positions (v : value) (col : list cell) : list nat :=
  positions_from 0 v col.

(** The distinct non-null values of a column, in order of first appearance. *)
Fixpoint distinct_values (col : list cell) (seen : list value) : list value :=
  match col with
  | [] => []
  | None :: col' => distinct_values col' seen
  | Some v :: col' =>
      if existsb (value_eqb v) seen then distinct_values col' seen
      else v :: distinct_values col' (v :: seen)
  end.

Fixpoint insert_value (v : value) (l : list value) : list value :=
  match l with
  | [] => [v]
  | w :: l' => if value_ltb v w then v :: l else w :: insert_value v l'
  end.

(** The group keys of [col.groupby(col)]: the null cells are dropped, the
    keys are sorted when they can be compared and kept in order of
    appearance otherwise. *)
Definition categories (col : list cell) : list value :=
  let vs := distinct_values col [] in
  if sortable vs then fold_right insert_value [] vs else vs.

(** [reverse_index(col)]: [col.groupby(col).indices], the positions of the
    rows of each group in ascending order. *)
Definition reverse_index (col : list cell) : list (value * list nat) :=
  map (fun v => (v, positions v col)) (categories col).

(** [math.comb(n, 2)] *)
Definition comb2 (n : nat) : nat := n * (n - 1) / 2.

(** ** The matcher *)

Record Matcher : Type := {
  col_order : list (string * nat);
  values : list (list cell);
  reverse : list (string * list (value * rowset));
  frozen_valid : rowset;
  col_to_ix : list (string * nat);
  columns : list string;
  n_pairs : list (string * nat)
}.

(** The record the logger receives from [clip_list]:
    [Sampling {max_size} out of {elems.size}]. *)
Inductive warning : Type :=
| Sampling_out_of (max_size : Z) (size : nat).

Section Construction.
Variable G : NumpyRng.

(** The indices of [rng.choice(elems, size)]: numpy draws them with
    replacement unless [replace=False] is passed, and the source does not
    pass it. *)
Fixpoint choice_indices (size pop : nat) (g : bitgen G)
  : list nat * bitgen G :=
  match size with
  | 0 => ([], g)
  | S size' =>
      let (i, g1) := next_bounded G g pop in
      let (rest, g2) := choice_indices size' pop g1 in
      (i :: rest, g2)
  end.

Definition rng_choice (g : bitgen G) (elems : list nat) (size : nat)
  : list nat * bitgen G :=
  let (ixs, g') := choice_indices size (length elems) g in
  (map (fun i => nth i elems 0) ixs, g').

Definition clip_list (max_size : option Z) (elems : list nat)
  (st : bitgen G * list warning)
  : result (list nat * (bitgen G * list warning)) :=
  match max_size with
  | None => Ok (elems, st)
  | Some k =>
      if negb (k =? 0)%Z && (k <? Z.of_nat (length elems))%Z then
        let logs := snd st ++ [Sampling_out_of k (length elems)] in
        if (k <? 0)%Z then
          Raise (ValueError "negative dimensions are not allowed")
        else
          let (sample, g') := rng_choice (fst st) elems (Z.to_nat k) in
          Ok (sample, (g', logs))
      else Ok (elems, st)
  end.

(** [reverse_index(col).apply(clip_list)]: the groups are clipped one
    after the other with the same generator. *)
Fixpoint clip_groups (max_size : option Z) (groups : list (value * list nat))
  (st : bitgen G * list warning)
  : result (list (value * list nat) * (bitgen G * list warning)) :=
  match groups with
  | [] => Ok ([], st)
  | (v, elems) :: groups' =>
      r <- clip_list max_size elems st ;;
      r' <- clip_groups max_size groups' (snd r) ;;
      Ok ((v, fst r) :: fst r', snd r')
  end.

(** [mappers = [reverse_index(dframe[col]).apply(clip_list) for col in dframe]] *)
Fixpoint build_mappers (max_size : option Z) (vals : list (list cell))
  (names : list string) (i : nat) (st : bitgen G * list warning)
  : result (list (string * list (value * list nat))
            * (bitgen G * list warning)) :=
  match names with
  | [] => Ok ([], st)
  | name :: names' =>
      r <- clip_groups max_size (reverse_index (column_at i vals)) st ;;
      r' <- build_mappers max_size vals names' (S i) (snd r) ;;
      Ok ((name, fst r) :: fst r', snd r')
  end.

Definition sum_nat (l : list nat) : nat := fold_right Nat.add 0 l.

Definition enumerate (l : list string) : list (string * nat) :=
  combine l (seq 0 (length l)).

(** [Matcher.__init__].  A column named twice makes [dframe[col]] a frame
    and not a series, which [groupby] refuses. *)
Definition Matcher_init (dframe : DataFrame) (columns : list string)
  (seed : Z) (max_size : option Z)
  : result (Matcher * bitgen G * list warning) :=
  let rng := default_rng G seed in
  vals <- select_columns dframe columns ;;
  if negb (nodupb columns) then
    Raise (ValueError "Grouper not 1-dimensional")
  else
    r <- build_mappers max_size vals columns 0 (rng, []) ;;
    let mappers := fst r in
    let n_pairs :=
      fold_left
        (fun d mapper =>
           dict_set String.eqb (fst mapper)
             (sum_nat (map (fun g => comb2 (length (snd g))) (snd mapper))) d)
        mappers [] in
    let get c :=
      match dict_get String.eqb c n_pairs with Some n => n | None => 0 end in
    let col_order := sort_by get (dict_keys n_pairs) in
    Ok ({| col_order := enumerate col_order;
           values := vals;
           reverse :=
             map (fun mapper =>
                    (fst mapper,
                     map (fun g => (fst g, set_of_list (snd g))) (snd mapper)))
                 mappers;
           frozen_valid := seq 0 (length vals);
           col_to_ix := enumerate columns;
           columns := columns;
           n_pairs := n_pairs |},
        fst (snd r), snd (snd r)).
End Construction.

(** ** Constraint specifications and pair collections *)

(** A [sameby] or [diffby] argument: a column name, a list of column names,
    or a dict with the entries ["all"] and ["any"], a missing entry being
    the empty list. *)
Inductive colspec : Type :=
| ColName (c : string)
| ColList (cs : list string)
| ColDict (all any : list string).

(** The key of a pair collection: [None], a value of the single sameby
    column, or a [ComposedKey] tuple. *)
Inductive key : Type :=
| KNone
| KVal (v : value)
| KComposed (vs : list cell).

Fixpoint cells_eqb (a b : list cell) : bool :=
  match a, b with
  | [], [] => true
  | x :: a', y :: b' => cell_eqb x y && cells_eqb a' b'
  | _, _ => false
  end.

Definition key_eqb (a b : key) : bool :=
  match a, b with
  | KNone, KNone => true
  | KVal x, KVal y => value_eqb x y
  | KComposed x, KComposed y => cells_eqb x y
  | _, _ => false
  end.

Definition pairs_dict : Type := list (key * list rowpair).

(** The four conditions [_filter_pairs_by_condition] is called with. *)
Inductive condition : Type := all_same | any_same | all_diff | any_diff.

(** An array of pairs.  [np.array] of an empty Python list has one
    dimension and no element; any other array of pairs has the shape
    [(n, 2)], also when a mask has left it no row. *)
Inductive ndarray : Type :=
| Flat
| Rows (rows : list rowpair).

Definition np_array (l : list rowpair) : ndarray :=
  match l with
  | [] => Flat
  | _ :: _ => Rows l
  end.

Definition array_rows (a : ndarray) : list rowpair :=
  match a with
  | Flat => []
  | Rows rows => rows
  end.

Definition value_repr (v : value) : string :=
  match v with VStr s => s | VInt _ => "<int>" end.

Section Engine.
Variable rt : PyRuntime.
Variable m : Matcher.

Definition get_col_ix (c : string) : result nat :=
  match dict_get String.eqb c (col_to_ix m) with
  | Some i => Ok i
  | None => Raise (KeyError c)
  end.

Definition get_reverse (c : string) : result (list (value * rowset)) :=
  match dict_get String.eqb c (reverse m) with
  | Some mapper => Ok mapper
  | None => Raise (KeyError c)
  end.

Definition get_group (mapper : list (value * rowset)) (v : value)
  : result rowset :=
  match dict_get value_eqb v mapper with
  | Some rows => Ok rows
  | None => Raise (KeyError (value_repr v))
  end.

(** [self.values[idx]] *)
Definition get_row (idx : nat) : result (list cell) :=
  match nth_error (values m) idx with
  | Some row => Ok row
  | None => Raise (IndexError "index out of bounds")
  end.

(** [row[ix]] *)
Definition get_cell (row : list cell) (ix : nat) : result cell :=
  match nth_error row ix with
  | Some c => Ok c
  | None => Raise (IndexError "index out of bounds")
  end.

(** The first loop of [_filter_diffby]. *)
Definition filter_diffby_all (row : list cell) (diffby_all : list string)
  (valid : rowset) : result rowset :=
  foldM (fun valid col =>
           ix <- get_col_ix col ;;
           val <- get_cell row ix ;;
           match val with
           | None => Ok valid
           | Some v =>
               mapper <- get_reverse col ;;
               same <- get_group mapper v ;;
               Ok (set_diff valid same)
           end)
        diffby_all valid.

(** The loop that fills [mapped] in [_filter_diffby]. *)
Definition mapped_any (row : list cell) (diffby_any : list string)
  : result (list rowset) :=
  foldM (fun mapped col =>
           ix <- get_col_ix col ;;
           val <- get_cell row ix ;;
           match val with
           | None => Ok mapped
           | Some v =>
               mapper <- get_reverse col ;;
               same <- get_group mapper v ;;
               Ok (mapped ++ [same])
           end)
        diffby_any [].

Definition _filter_diffby (idx : nat) (diffby_all diffby_any : list string)
  (valid : rowset) : result rowset :=
  row <- get_row idx ;;
  valid <- filter_diffby_all row diffby_all valid ;;
  match diffby_any with
  | [] => Ok valid
  | _ :: _ =>
      mapped <- mapped_any row diffby_any ;;
      shared <- set_intersection mapped ;;
      Ok (set_diff valid shared)
  end.

(** The loop [for id1 in rows] of [_get_all_pairs_single]; [todo] is what
    is left of the iteration over [rows]. *)
Fixpoint single_group (k : key) (rows : rowset)
  (diffby_all diffby_any : list string) (todo : list nat)
  (processed : rowset) (pairs : pairs_dict) : result pairs_dict :=
  match todo with
  | [] => Ok pairs
  | id1 :: todo' =>
      let processed := set_add id1 processed in
      let valid := set_diff rows processed in
      valid <- _filter_diffby id1 diffby_all diffby_any valid ;;
      single_group k rows diffby_all diffby_any todo' processed
        (fold_left (fun pairs id2 => dict_append key_eqb k (id1, id2) pairs)
                   (set_iter rt valid) pairs)
  end.

Definition _get_all_pairs_single (sameby : string)
  (diffby_all diffby_any : list string) : result pairs_dict :=
  mapper <- get_reverse sameby ;;
  foldM (fun pairs item =>
           single_group (KVal (fst item)) (snd item) diffby_all diffby_any
             (set_iter rt (snd item)) [] pairs)
        mapper [].

(** [_get_full_pairs]: the products of the groups of every two keys, as
    an array. *)
Definition _get_full_pairs (mapper : list (value * rowset)) : ndarray :=
  np_array
    (flat_map (fun ab =>
                 product (set_iter rt (snd (fst ab)))
                         (set_iter rt (snd (snd ab))))
              (combinations2 mapper)).

(** The comparison of one pair on the columns [col_ix]. *)
Definition pair_holds (cond : condition) (col_ix : list nat) (p : rowpair)
  : result bool :=
  row1 <- get_row (fst p) ;;
  row2 <- get_row (snd p) ;;
  vals_a <- mapM (get_cell row1) col_ix ;;
  vals_b <- mapM (get_cell row2) col_ix ;;
  let same := map (fun ab => cell_eq (fst ab) (snd ab)) (combine vals_a vals_b) in
  Ok (match cond with
      | all_same => forallb (fun b => b) same
      | any_same => existsb (fun b => b) same
      | all_diff => forallb negb same
      | any_diff => existsb negb same
      end).

(** [_filter_pairs_by_condition]: [pairs[:, 0]] raises on an array of one
    dimension. *)
Definition _filter_pairs_by_condition (pairs : ndarray)
  (cols : list string) (cond : condition) : result (list rowpair) :=
  col_ix <- mapM get_col_ix cols ;;
  match pairs with
  | Flat => Raise (IndexError "too many indices for array")
  | Rows rows =>
      foldM (fun kept p =>
               b <- pair_holds cond col_ix p ;;
               Ok (if b then kept ++ [p] else kept))
            rows []
  end.

(** [sorted(cols, key=self.col_order.get)]: a column without an order has
    the key [None], which cannot be compared. *)
Definition sorted_by_col_order (cols : list string) : result (list string) :=
  if length cols <=? 1 then Ok cols
  else if forallb (fun c =>
                     match dict_get String.eqb c (col_order m) with
                     | Some _ => true
                     | None => false
                     end) cols
  then Ok (sort_by (fun c =>
                      match dict_get String.eqb c (col_order m) with
                      | Some i => i
                      | None => 0
                      end) cols)
  else Raise (TypeError "'<' not supported between instances of 'NoneType'").

Definition first_col (cols : list string) : result string :=
  match cols with
  | [] => Raise (IndexError "list index out of range")
  | c :: _ => Ok c
  end.

Definition _only_diffby_all (diffby_all : list string) : result pairs_dict :=
  diffby_all <- sorted_by_col_order diffby_all ;;
  c <- first_col diffby_all ;;
  mapper <- get_reverse c ;;
  let pairs := _get_full_pairs mapper in
  pairs <- (if 1 <? length diffby_all then
              _filter_pairs_by_condition pairs (tl diffby_all) all_diff
            else Ok (array_rows pairs)) ;;
  Ok [(KNone, np_unique pairs)].

Definition _only_diffby_any (diffby : list string) : result pairs_dict :=
  diffby <- sorted_by_col_order diffby ;;
  pairs <- foldM (fun pairs diff_col =>
                    mapper <- get_reverse diff_col ;;
                    Ok (pairs ++ array_rows (_get_full_pairs mapper)))
                 diffby [] ;;
  Ok [(KNone, np_unique (np_sort_rows pairs))].

Definition _only_diffby_all_any (diffby_all diffby_any : list string)
  : result pairs_dict :=
  d <- _only_diffby_all diffby_all ;;
  let diffby_all_pairs :=
    match dict_get key_eqb KNone d with Some l => l | None => [] end in
  diffby_all_any <-
    _filter_pairs_by_condition (np_array diffby_all_pairs) diffby_any any_diff ;;
  Ok [(KNone, diffby_all_any)].

(** The candidates of the first column that agree on the other sameby
    columns, under their [ComposedKey]. *)
Definition composed_key (names sorted_names : list string) (vals : list cell)
  : key :=
  let d := fold_left (fun d nv => dict_set String.eqb (fst nv) (snd nv) d)
                     (combine sorted_names vals) [] in
  KComposed (map (fun n =>
                    match dict_get String.eqb n d with
                    | Some c => c
                    | None => None
                    end) names).

Definition promote (names sorted_names : list string) (col_ix : list nat)
  (candidates : pairs_dict) : result pairs_dict :=
  foldM (fun pairs item =>
           foldM (fun pairs p =>
                    b <- pair_holds all_same col_ix p ;;
                    if b : bool then
                      row1 <- get_row (fst p) ;;
                      rest <- mapM (get_cell row1) col_ix ;;
                      let first :=
                        match fst item with
                        | KVal v => Some v
                        | _ => None
                        end in
                      Ok (dict_append key_eqb
                            (composed_key names sorted_names (first :: rest))
                            p pairs)
                    else Ok pairs)
                 (snd item) pairs)
        candidates [].

(** [other in array]: numpy computes [(array == other).any()], an
    elementwise comparison after broadcasting. *)
Definition coord_eq_any (a b : list rowpair) : bool :=
  existsb (fun ab =>
             (fst (fst ab) =? fst (snd ab)) || (snd (fst ab) =? snd (snd ab)))
          (combine a b).

Definition array_contains (arr : list rowpair) (v : list rowpair)
  : result bool :=
  let k := length arr in
  let n := length v in
  if n =? 0 then array_eq_mismatch rt
  else if k =? n then Ok (coord_eq_any arr v)
  else if k =? 1 then Ok (coord_eq_any (repeat (hd (0, 0) arr) n) v)
  else if n =? 1 then Ok (coord_eq_any arr (repeat (hd (0, 0) v) k))
  else array_eq_mismatch rt.

(** [v[0]] *)
Definition first_pair (v : list rowpair) : result rowpair :=
  match v with
  | [] => Raise (IndexError "list index out of range")
  | p :: _ => Ok p
  end.

Definition filter_sameby_any (pairs : pairs_dict) (sameby_any : list string)
  : result pairs_dict :=
  pair_values <- mapM (fun item => first_pair (snd item)) pairs ;;
  pairs_any <-
    _filter_pairs_by_condition (np_array pair_values) sameby_any any_same ;;
  foldM (fun kept item =>
           b <- array_contains pairs_any (snd item) ;;
           Ok (if b : bool then kept ++ [item] else kept))
        pairs [].

Definition only_sameby_any (sameby_any diffby_all diffby_any : list string)
  : result pairs_dict :=
  pairs <- foldM (fun pairs col =>
                    col_pairs <- _get_all_pairs_single col diffby_all diffby_any ;;
                    firsts <- mapM (fun item => first_pair (snd item)) col_pairs ;;
                    Ok (pairs ++ firsts))
                 sameby_any [] ;;
  Ok [(KNone, np_unique pairs)].

Definition split_spec (who : string) (spec : colspec)
  : result (list string * list string) :=
  match spec with
  | ColDict all any =>
      if length any =? 1 then
        Raise (ValueError (who ++ ": any should have more than one column"))
      else Ok (all, any)
  | ColName c => Ok ([c], [])
  | ColList cs => Ok (cs, [])
  end.

Definition in_cols (c : string) (cs : list string) : bool :=
  existsb (String.eqb c) cs.

(** [set(a) & set(b) & set(c) & set(d)] is not empty. *)
Definition common_to_all (a b c d : list string) : bool :=
  existsb (fun x => in_cols x b && in_cols x c && in_cols x d) a.

Definition is_empty {A : Type} (l : list A) : bool :=
  match l with [] => true | _ :: _ => false end.

Definition get_all_pairs (sameby diffby : colspec) : result pairs_dict :=
  s <- split_spec "sameby" sameby ;;
  d <- split_spec "diffby" diffby ;;
  let sameby_all := fst s in
  let sameby_any := snd s in
  let diffby_all := fst d in
  let diffby_any := snd d in
  let named := sameby_all ++ sameby_any ++ diffby_all ++ diffby_any in
  if common_to_all sameby_all sameby_any diffby_all diffby_any then
    Raise (ValueError "sameby and diffby must be disjoint lists")
  else if is_empty named then
    Raise (ValueError "sameby, diffby: at least one column should be provided")
  else if negb (forallb (fun c => in_cols c (columns m)) named) then
    Raise (ValueError
             ("sameby, diffby: "
              ++ String.concat ", "
                   (filter (fun c => negb (in_cols c (columns m))) named)
              ++ " columns not in DataFrame"))
  else if is_empty sameby_all && is_empty sameby_any then
    if is_empty diffby_any then _only_diffby_all diffby_all
    else if is_empty diffby_all then _only_diffby_any diffby_any
    else _only_diffby_all_any diffby_all diffby_any
  else
    pairs <-
      match sameby_all with
      | [] => Ok []
      | [k] => _get_all_pairs_single k diffby_all diffby_any
      | _ :: _ :: _ =>
          if forallb (is_field_name rt) sameby_all && nodupb sameby_all then
            sorted <- sorted_by_col_order sameby_all ;;
            c <- first_col sorted ;;
            candidates <- _get_all_pairs_single c diffby_all diffby_any ;;
            col_ix <- mapM get_col_ix (tl sorted) ;;
            promote sameby_all sorted col_ix candidates
          else
            Raise (ValueError "Type names and field names must be valid identifiers")
      end ;;
    match sameby_any with
    | [] => Ok pairs
    | _ :: _ =>
        if is_empty pairs then
          only_sameby_any sameby_any diffby_all diffby_any
        else filter_sameby_any pairs sameby_any
    end.
End Engine.

(** ** Random draws and null sampling

    The matcher keeps the generator [self.rng] and the iterator
    [self.rand_iter] over the current batch of uniform values; both change
    at every draw, also when the call ends in an exception. *)

Section Sampling.
Variable rt : PyRuntime.
Variable G : NumpyRng.
(** The size of a refill, [int(1e6)] in the source. *)
Variable batch : nat.

Record rand_state : Type := {
  rng : bitgen G;
  rand_iter : list Q
}.

(** [rng.uniform(size=n)]: [n] doubles drawn one after the other. *)
Fixpoint uniform (size : nat) (g : bitgen G) : list Q * bitgen G :=
  match size with
  | 0 => ([], g)
  | S size' =>
      let (u, g1) := next_double G g in
      let (rest, g2) := uniform size' g1 in
      (u :: rest, g2)
  end.

Definition rand_next (st : rand_state) : result Q * rand_state :=
  match rand_iter st with
  | u :: rest => (Ok u, {| rng := rng st; rand_iter := rest |})
  | [] =>
      let (rands, g) := uniform batch (rng st) in
      match rands with
      | u :: rest => (Ok u, {| rng := g; rand_iter := rest |})
      | [] => (Raise StopIteration, {| rng := g; rand_iter := [] |})
      end
  end.

(** [int(x)] truncates towards zero. *)
Definition py_int (x : Q) : Z :=
  if Qle_bool 0 x then Qfloor x else Qceiling x.

Definition integers (min_val max_val : Z) (st : rand_state)
  : result Z * rand_state :=
  match rand_next st with
  | (Ok u, st') =>
      (Ok (py_int (u * inject_Z (max_val - min_val + 1) + inject_Z min_val)),
       st')
  | (Raise e, st') => (Raise e, st')
  end.

(** [items[pos]] on a list: a negative index counts from the end. *)
Definition list_item (items : list nat) (pos : Z) : result nat :=
  let n := Z.of_nat (length items) in
  let i := if (pos <? 0)%Z then (pos + n)%Z else pos in
  if (0 <=? i)%Z && (i <? n)%Z then
    match nth_error items (Z.to_nat i) with
    | Some x => Ok x
    | None => Raise (IndexError "list index out of range")
    end
  else Raise (IndexError "list index out of range").

Definition choice (items : list nat) (st : rand_state)
  : result nat * rand_state :=
  match integers 0 (Z.of_nat (length items) - 1) st with
  | (Ok pos, st') => (list_item items pos, st')
  | (Raise e, st') => (Raise e, st')
  end.

Variable m : Matcher.

Definition _null_sample (diffby_all diffby_any : list string)
  (st : rand_state) : result rowpair * rand_state :=
  let valid := frozen_valid m in
  match integers 0 (Z.of_nat (length valid) - 1) st with
  | (Raise e, st') => (Raise e, st')
  | (Ok id1, st') =>
      if (0 <=? id1)%Z && mem (Z.to_nat id1) valid then
        let id1 := Z.to_nat id1 in
        let valid := set_diff valid [id1] in
        match _filter_diffby m id1 diffby_all diffby_any valid with
        | Raise e => (Raise e, st')
        | Ok valid =>
            if is_empty valid then
              (Raise (UnpairedException "has no pairs"), st')
            else
              match choice (set_iter rt valid) st' with
              | (Ok id2, st'') => (Ok (id1, id2), st'')
              | (Raise e, st'') => (Raise e, st'')
              end
        end
      else (Raise (KeyError "id1"), st')
  end.

Definition tries_exhausted : exn :=
  ValueError "Number of tries exhusted. Could not find a valid pair".

(** The loop [for _ in range(n_tries)] of [sample_null_pair]. *)
Fixpoint try_null_sample (n_tries : nat) (diffby_all diffby_any : list string)
  (st : rand_state) : result rowpair * rand_state :=
  match n_tries with
  | 0 => (Raise tries_exhausted, st)
  | S n' =>
      match _null_sample diffby_all diffby_any st with
      | (Raise (UnpairedException _), st') =>
          try_null_sample n' diffby_all diffby_any st'
      | outcome => outcome
      end
  end.

Definition sample_null_pair (diffby : colspec) (n_tries : Z)
  (st : rand_state) : result rowpair * rand_state :=
  match split_spec "diffby" diffby with
  | Raise e => (Raise e, st)
  | Ok d => try_null_sample (Z.to_nat n_tries) (fst d) (snd d) st
  end.
End Sampling.

(** ** The multilabel adapter

    The frame given to [MatcherMultilabel] has scalar columns, held by a
    [DataFrame], and the column [multilabel_col], whose cell is a list of
    labels for every row ([labels]).  Its index is the default one, so that
    [__original_index] is the position of the row. *)

Record MatcherMultilabel : Type := {
  multilabel_col : string;
  size : nat;
  multilabel_set : list (list value);
  original_index : list nat;
  matcher : Matcher
}.

Fixpoint dedup_values (l : list value) : list value :=
  match l with
  | [] => []
  | v :: l' =>
      if existsb (value_eqb v) l' then dedup_values l' else v :: dedup_values l'
  end.

(** [len(a & b) == 0] *)
Definition labels_disjoint (a b : list value) : bool :=
  negb (existsb (fun x => existsb (value_eqb x) b) a).

(** [dframe.explode(multilabel_col)]: one row per label, a row without
    label keeps one row with a null cell. *)
Definition explode_row (i : nat) (row : list cell) (ls : list value)
  : list (nat * list cell) :=
  match ls with
  | [] => [(i, row ++ [None])]
  | _ :: _ => map (fun l => (i, row ++ [Some l])) ls
  end.

Fixpoint explode_from (i : nat) (rows : list (list cell))
  (labels : list (list value)) : list (nat * list cell) :=
  match rows, labels with
  | row :: rows', ls :: labels' =>
      explode_row i row ls ++ explode_from (S i) rows' labels'
  | _, _ => []
  end.

Section Multilabel.
Variable rt : PyRuntime.
Variable G : NumpyRng.

Definition MatcherMultilabel_init (dframe : DataFrame)
  (labels : list (list value)) (columns : list string)
  (multilabel_col : string) (seed : Z)
  : result (MatcherMultilabel * bitgen G * list warning) :=
  let exploded := explode_from 0 (df_rows dframe) labels in
  r <- Matcher_init G
         {| df_columns := df_columns dframe ++ [multilabel_col];
            df_rows := map snd exploded |}
         columns seed None ;;
  Ok ({| multilabel_col := multilabel_col;
         size := length (df_rows dframe);
         multilabel_set := map dedup_values labels;
         original_index := map fst exploded;
         matcher := fst (fst r) |},
      snd (fst r), snd r).

Variable mm : MatcherMultilabel.

(** [not sameby] *)
Definition spec_is_empty (spec : colspec) : bool :=
  match spec with
  | ColName c => String.eqb c ""
  | ColList cs => is_empty cs
  | ColDict _ _ => false
  end.

Definition get_original (i : nat) : result nat :=
  match nth_error (original_index mm) i with
  | Some o => Ok o
  | None => Raise (KeyError "original_index")
  end.

Definition get_labels (i : nat) : result (list value) :=
  match nth_error (multilabel_set mm) i with
  | Some ls => Ok ls
  | None => Raise (IndexError "positional indexers are out-of-bounds")
  end.

(** The body of the loop over [pairs.items()]: the identifiers are mapped
    to the original rows, and, when the multilabel column is a diffby
    target, the pairs whose label sets meet are dropped. *)
Definition map_values (diffby_multi : bool) (vals : list rowpair)
  : result (list rowpair) :=
  match np_array vals with
  | Flat => Raise (IndexError "too many indices for array")
  | Rows rows =>
      mapped <- mapM (fun p =>
                        a <- get_original (fst p) ;;
                        b <- get_original (snd p) ;;
                        Ok (a, b)) rows ;;
      if diffby_multi then
        foldM (fun kept p =>
                 la <- get_labels (fst p) ;;
                 lb <- get_labels (snd p) ;;
                 Ok (if labels_disjoint la lb then kept ++ [p] else kept))
              mapped []
      else Ok mapped
  end.

Definition map_pairs (diffby_multi : bool) (pairs : pairs_dict)
  : result pairs_dict :=
  mapM (fun item =>
          vals <- map_values diffby_multi (snd item) ;;
          Ok (fst item, vals)) pairs.

(** [set(x) not in pairs], [pairs] being a set of frozensets. *)
Definition unordered_in (x : rowpair) (pairs : list rowpair) : bool :=
  existsb (fun p =>
             ((fst p =? fst x) && (snd p =? snd x))
             || ((fst p =? snd x) && (snd p =? fst x))) pairs.

(** [_only_diffby_multi], given the outcome of
    [self.get_all_pairs(self.multilabel_col, [])]. *)
Definition only_diffby_multi_from (same : pairs_dict) : pairs_dict :=
  let pairs := concat (map snd same) in
  [(KNone,
    filter (fun x => negb (unordered_in x pairs))
           (combinations2 (seq 0 (size mm))))].

(** [MatcherMultilabel.get_all_pairs].  The call of [_only_diffby_multi]
    comes back to this function with the multilabel column as sameby and
    no diffby, which takes the branch of the engine. *)
Definition multi_get_all_pairs (sameby : colspec) (diffby : list string)
  : result pairs_dict :=
  let diffby_multi := in_cols (multilabel_col mm) diffby in
  let diffby :=
    if diffby_multi then
      filter (fun c => negb (String.eqb (multilabel_col mm) c)) diffby
    else diffby in
  if is_empty diffby && spec_is_empty sameby && diffby_multi then
    pairs <- get_all_pairs rt (matcher mm) (ColName (multilabel_col mm))
               (ColList []) ;;
    same <- map_pairs false pairs ;;
    Ok (only_diffby_multi_from same)
  else
    pairs <- get_all_pairs rt (matcher mm) sameby (ColList diffby) ;;
    map_pairs diffby_multi pairs.
End Multilabel.

(** ** Sequences of calls on one matcher *)

Inductive call : Type :=
| Call_sample_null_pair (diffby : colspec) (n_tries : Z)
| Call_get_all_pairs (sameby diffby : colspec).

Inductive outcome : Type :=
| Out_pair (r : result rowpair)
| Out_pairs (r : result pairs_dict).

(** The state of the draws of a matcher that has just been constructed:
    [self.rand_iter = iter([])]. *)
Definition fresh_state (G : NumpyRng) (g : bitgen G) : rand_state G :=
  {| rng := g; rand_iter := [] |}.

Fixpoint run_calls (rt : PyRuntime) (G : NumpyRng) (batch : nat) (m : Matcher)
  (calls : list call) (st : rand_state G) : list outcome :=
  match calls with
  | [] => []
  | Call_sample_null_pair diffby n_tries :: calls' =>
      let (r, st') := sample_null_pair rt batch m diffby n_tries st in
      Out_pair r :: run_calls rt batch m calls' st'
  | Call_get_all_pairs sameby diffby :: calls' =>
      Out_pairs (get_all_pairs rt m sameby diffby)
      :: run_calls rt batch m calls' st
  end.
Arguments run_calls rt G batch m calls st : clear implicits.

(** ** A concrete runtime and a concrete generator, for the examples *)

Lemma insert_by_perm (A : Type) (key : A -> nat) (x : A) (l : list A) :
  Permutation (insert_by key x l) (x :: l).
Proof.
  induction l as [|y l IH]; simpl; [reflexivity|].
  destruct (key x <=? key y); [reflexivity|].
  rewrite IH. apply perm_swap.
Qed.

Lemma sort_by_perm (A : Type) (key : A -> nat) (l : list A) :
  Permutation (sort_by key l) l.
Proof.
  induction l as [|x l IH]; simpl; [reflexivity|].
  unfold sort_by in *. simpl. rewrite insert_by_perm. now constructor.
Qed.

Fixpoint nodup_nat (l : list nat) : bool :=
  match l with
  | [] => true
  | x :: l' => negb (existsb (Nat.eqb x) l') && nodup_nat l'
  end.

(** The order of CPython on the sets of the examples.  A set of fewer than
    five elements sits in a table of eight slots, the integer [x] at the
    slot [x mod 8] when the slots of its elements are distinct, and the
    iteration visits the table slot by slot: [set([1, 8])] is visited as
    [8, 1].  The larger sets of the examples sit in tables with more slots
    than they have row identifiers, and are visited in ascending order. *)
Definition cpython_iter (s : rowset) : list nat :=
  if (length s <? 5) && nodup_nat (map (fun x => x mod 8) s)
  then sort_by (fun x => x mod 8) s
  else s.

Lemma cpython_iter_perm (s : rowset) : Permutation (cpython_iter s) s.
Proof.
  unfold cpython_iter.
  destruct ((length s <? 5) && nodup_nat (map (fun x => x mod 8) s));
    [apply sort_by_perm | reflexivity].
Qed.

Definition is_letter (a : ascii) : bool :=
  let n := nat_of_ascii a in
  ((65 <=? n) && (n <=? 90)) || ((97 <=? n) && (n <=? 122)) || (n =? 95).

Definition is_digit (a : ascii) : bool :=
  let n := nat_of_ascii a in (48 <=? n) && (n <=? 57).

Definition python_keywords : list string :=
  ["False"; "None"; "True"; "and"; "as"; "assert"; "async"; "await"; "break";
   "class"; "continue"; "def"; "del"; "elif"; "else"; "except"; "finally";
   "for"; "from"; "global"; "if"; "import"; "in"; "is"; "lambda"; "nonlocal";
   "not"; "or"; "pass"; "raise"; "return"; "try"; "while"; "with"; "yield"]%string.

(** The field names [namedtuple] accepts, for names written in ASCII. *)
Definition ascii_field_name (s : string) : bool :=
  match s with
  | EmptyString => false
  | String a rest =>
      is_letter a && negb (nat_of_ascii a =? 95)
      && forallb (fun c => is_letter c || is_digit c) (list_ascii_of_string rest)
      && negb (existsb (String.eqb s) python_keywords)
  end.

Definition cpython_rt : PyRuntime :=
  {| set_iter := cpython_iter;
     set_iter_perm := cpython_iter_perm;
     array_eq_mismatch :=
       Raise (ValueError "operands could not be broadcast together");
     is_field_name := ascii_field_name |}.

(** A small linear congruential generator. *)
Definition lcg_step (g : Z) : Z := ((g * 75 + 74) mod 65537)%Z.

Definition lcg_double (g : Z) : Q * Z := ((g mod 1000)%Z # 1000, lcg_step g).

Definition lcg_bounded (g : Z) (n : nat) : nat * Z :=
  (Z.to_nat (g mod Z.of_nat n), lcg_step g).

Lemma lcg_double_range (g : Z) :
  (0 <= fst (lcg_double g))%Q /\ (fst (lcg_double g) < 1)%Q.
Proof.
  unfold lcg_double; simpl.
  pose proof (Z.mod_pos_bound g 1000 ltac:(lia)) as B.
  unfold Qle, Qlt; simpl. lia.
Qed.

Lemma lcg_bounded_lt (g : Z) (n : nat) : 0 < n -> fst (lcg_bounded g n) < n.
Proof.
  intro H. unfold lcg_bounded; simpl.
  pose proof (Z.mod_pos_bound g (Z.of_nat n) ltac:(lia)). lia.
Qed.

Definition lcg : NumpyRng :=
  {| bitgen := Z;
     default_rng := fun seed => seed;
     next_double := lcg_double;
     next_double_range := lcg_double_range;
     next_bounded := lcg_bounded;
     next_bounded_lt := lcg_bounded_lt |}.

(** ** The data of the scenarios *)

Definition str (s : string) : cell := Some (VStr s).
Definition int (z : Z) : cell := Some (VInt z).

(** Scenario A: [compound = [X, X, Y, Y]], [plate = [1, 2, 1, 2]]. *)
Definition scenario_A : DataFrame :=
  {| df_columns := ["compound"; "plate"]%string;
     df_rows := [[str "X"; int 1]; [str "X"; int 2];
                 [str "Y"; int 1]; [str "Y"; int 2]] |}.

(** The matcher [Matcher(scenario_A, ["compound", "plate"], seed)]. *)
Definition matcher_A : Matcher :=
  {| col_order := [("compound", 0); ("plate", 1)]%string;
     values := df_rows scenario_A;
     reverse :=
       [("compound", [(VStr "X", [0; 1]); (VStr "Y", [2; 3])]);
        ("plate", [(VInt 1, [0; 2]); (VInt 2, [1; 3])])]%string;
     frozen_valid := [0; 1; 2; 3];
     col_to_ix := [("compound", 0); ("plate", 1)]%string;
     columns := ["compound"; "plate"]%string;
     n_pairs := [("compound", 2); ("plate", 2)]%string |}.

(** The 12 rows on which the union of the sameby-any pairs holds a pair in
    both directions: column [a] groups the rows 1 and 8, column [b] the rows
    1, 8, 9, 10 and 11; every other cell is a value of its own. *)
Definition two_groups : DataFrame :=
  {| df_columns := ["a"; "b"]%string;
     df_rows :=
       [[int 100; int 200]; [int 1; int 2]; [int 102; int 202];
        [int 103; int 203]; [int 104; int 204]; [int 105; int 205];
        [int 106; int 206]; [int 107; int 207]; [int 1; int 2];
        [int 109; int 2]; [int 110; int 2]; [int 111; int 2]] |}.

(** Two rows, the first one null in both columns. *)
Definition null_row : DataFrame :=
  {| df_columns := ["a"; "b"]%string;
     df_rows := [[None; None]; [int 1; int 2]] |}.

(** Two rows of the same compound, the first one null in the columns [a]
    and [b]. *)
Definition null_pair : DataFrame :=
  {| df_columns := ["c"; "a"; "b"]%string;
     df_rows := [[str "X"; None; None]; [str "X"; int 1; int 2]] |}.

(** Three rows of the same compound. *)
Definition one_compound : DataFrame :=
  {| df_columns := ["compound"]%string;
     df_rows := [[str "X"]; [str "X"]; [str "X"]] |}.

(** Scenario E: the label sets [{a, b}], [{b}] and [{c}]. *)
Definition scenario_E_labels : list (list value) :=
  [[VStr "a"; VStr "b"]; [VStr "b"]; [VStr "c"]].

Definition scenario_E : DataFrame :=
  {| df_columns := []; df_rows := [[]; []; []] |}.

(** The cell of row [r] in the column of index [i] of the matcher. *)
Definition cell_at (m : Matcher) (r i : nat) : cell :=
  nth i (nth r (values m) []) None.

(** ** Properties *)

Unset Implicit Arguments.

(** *** Results, loops and the runtime *)

Lemma bind_ok (A B : Type) (r : result A) (f : A -> result B) (b : B) :
  bind r f = Ok b -> exists a, r = Ok a /\ f a = Ok b.
Proof. destruct r as [a|e]; simpl; [eauto | discriminate]. Qed.

Lemma foldM_inv (A B : Type) (P : A -> Prop) (body : A -> B -> result A)
  (xs : list B) :
  (forall a x a', In x xs -> P a -> body a x = Ok a' -> P a') ->
  forall acc r, P acc -> foldM body xs acc = Ok r -> P r.
Proof.
  induction xs as [|x xs IH]; intros Hbody acc r Hacc H; simpl in H.
  - now injection H as <-.
  - apply bind_ok in H as (a' & Ha' & H).
    apply IH with (acc := a'); auto.
    + intros a y a'' Hy. apply Hbody. now right.
    + apply Hbody with (a := acc) (x := x); auto. now left.
Qed.

Lemma mapM_ok (A B : Type) (f : A -> result B) (xs : list A) (ys : list B) :
  mapM f xs = Ok ys -> Forall2 (fun x y => f x = Ok y) xs ys.
Proof.
  revert ys. induction xs as [|x xs IH]; intros ys H; simpl in H.
  - injection H as <-. constructor.
  - apply bind_ok in H as (y & Hy & H).
    apply bind_ok in H as (ys' & Hys & H). injection H as <-.
    constructor; auto.
Qed.

Lemma set_iter_In (rt : PyRuntime) (s : rowset) (x : nat) :
  In x (set_iter rt s) <-> In x s.
Proof.
  split; apply Permutation_in; [|symmetry]; apply set_iter_perm.
Qed.

Lemma set_iter_NoDup (rt : PyRuntime) (s : rowset) :
  NoDup s -> NoDup (set_iter rt s).
Proof.
  intro H. eapply Permutation_NoDup; [|exact H].
  symmetry. apply set_iter_perm.
Qed.

Lemma set_iter_nil (rt : PyRuntime) : set_iter rt [] = [].
Proof. apply Permutation_nil. symmetry. apply set_iter_perm. Qed.

Lemma set_iter_single (rt : PyRuntime) (x : nat) : set_iter rt [x] = [x].
Proof. apply Permutation_length_1_inv. symmetry. apply set_iter_perm. Qed.

(** *** Sets of row identifiers *)

Lemma mem_In (x : nat) (s : rowset) : mem x s = true <-> In x s.
Proof.
  unfold mem. rewrite existsb_exists. split.
  - intros (y & Hy & E). apply Nat.eqb_eq in E. now subst.
  - intro H. exists x. split; [exact H | apply Nat.eqb_refl].
Qed.

Lemma set_diff_In (a b : rowset) (x : nat) :
  In x (set_diff a b) <-> In x a /\ ~ In x b.
Proof.
  unfold set_diff. rewrite filter_In, negb_true_iff.
  rewrite <- mem_In with (s := b).
  destruct (mem x b); intuition congruence.
Qed.

Lemma set_inter_In (a b : rowset) (x : nat) :
  In x (set_inter a b) <-> In x a /\ In x b.
Proof. unfold set_inter. now rewrite filter_In, mem_In. Qed.

Lemma set_add_In (x y : nat) (s : rowset) :
  In y (set_add x s) <-> y = x \/ In y s.
Proof.
  induction s as [|z s IH]; simpl.
  - intuition.
  - destruct (x <? z) eqn:L; simpl; [intuition|].
    destruct (x =? z) eqn:E; simpl.
    + apply Nat.eqb_eq in E. subst. intuition.
    + rewrite IH. intuition.
Qed.

Lemma set_of_list_In (l : list nat) (x : nat) :
  In x (set_of_list l) <-> In x l.
Proof.
  induction l as [|y l IH]; simpl; [tauto|].
  unfold set_of_list in *. simpl. rewrite set_add_In, IH. intuition.
Qed.

Lemma set_diff_NoDup (a b : rowset) : NoDup a -> NoDup (set_diff a b).
Proof. apply NoDup_filter. Qed.

(** *** The matchers of the examples *)

Lemma scenario_A_init (G : NumpyRng) (seed : Z) :
  Matcher_init G scenario_A ["compound"; "plate"]%string seed None
  = Ok (matcher_A, default_rng G seed, []).
Proof. reflexivity. Qed.

(** *** Keys and lists of the pairs of a single sameby column *)

(** Every entry of a pair collection has a key among [keys] and a list of
    pairs that is not empty. *)
Definition entries_ok (keys : list value) (d : pairs_dict) : Prop :=
  forall k ps, In (k, ps) d ->
    ps <> [] /\ exists v, k = KVal v /\ In v keys.

Lemma dict_append_entries_ok (keys : list value) (v : value) (p : rowpair)
  (d : pairs_dict) :
  In v keys -> entries_ok keys d ->
  entries_ok keys (dict_append key_eqb (KVal v) p d).
Proof.
  intros Hv. induction d as [|[k' xs] d IH]; intros Hd k ps Hin;
    cbn [dict_append] in Hin.
  - destruct Hin as [E|[]]. injection E as <- <-.
    split; [discriminate | eauto].
  - destruct (key_eqb (KVal v) k').
    + destruct Hin as [E|Hin].
      * injection E as <- <-. split.
        -- destruct xs; discriminate.
        -- apply (Hd k' xs). now left.
      * apply (Hd k ps). now right.
    + destruct Hin as [E|Hin].
      * injection E as <- <-. apply (Hd k' xs). now left.
      * apply IH; auto. intros k0 ps0 H0. apply (Hd k0 ps0). now right.
Qed.

Lemma fold_append_entries_ok (keys : list value) (v : value) (id1 : nat)
  (ids : list nat) (d : pairs_dict) :
  In v keys -> entries_ok keys d ->
  entries_ok keys
    (fold_left (fun pairs id2 => dict_append key_eqb (KVal v) (id1, id2) pairs)
               ids d).
Proof.
  intro Hv. revert d. induction ids as [|id2 ids IH]; intros d Hd; simpl; auto.
  apply IH. now apply dict_append_entries_ok.
Qed.

Lemma single_group_entries_ok (rt : PyRuntime) (m : Matcher)
  (keys : list value) (v : value) (rows : rowset) (da dy : list string)
  (todo : list nat) :
  In v keys ->
  forall processed pairs r,
    entries_ok keys pairs ->
    single_group rt m (KVal v) rows da dy todo processed pairs = Ok r ->
    entries_ok keys r.
Proof.
  intro Hv. induction todo as [|id1 todo IH]; intros processed pairs r Hp H;
    simpl in H.
  - now injection H as <-.
  - apply bind_ok in H as (valid & _ & H).
    eapply IH; [|exact H]. now apply fold_append_entries_ok.
Qed.

Lemma single_entries_ok (rt : PyRuntime) (m : Matcher) (c : string)
  (da dy : list string) (pairs : pairs_dict) :
  _get_all_pairs_single rt m c da dy = Ok pairs ->
  exists mapper,
    dict_get String.eqb c (reverse m) = Some mapper
    /\ entries_ok (dict_keys mapper) pairs.
Proof.
  unfold _get_all_pairs_single, get_reverse. intro H.
  destruct (dict_get String.eqb c (reverse m)) as [mapper|]; [|discriminate].
  exists mapper. split; [reflexivity|]. simpl in H.
  eapply foldM_inv with (P := entries_ok (dict_keys mapper)); [| |exact H].
  - intros a item a' Hitem Ha Hbody.
    eapply single_group_entries_ok; [|exact Ha|exact Hbody].
    unfold dict_keys. now apply in_map.
  - intros k ps [].
Qed.

(** C10.  When [sameby] is a single column name, every key of the mapping
    that [get_all_pairs] returns is a value of the reverse index of that
    column, and the list of pairs under it is not empty. *)
Theorem single_sameby_keys (rt : PyRuntime) (m : Matcher) (c : string)
  (diffby : colspec) (pairs : pairs_dict) :
  get_all_pairs rt m (ColName c) diffby = Ok pairs ->
  exists mapper,
    dict_get String.eqb c (reverse m) = Some mapper
    /\ forall k ps, In (k, ps) pairs ->
         ps <> [] /\ exists v, k = KVal v /\ In v (dict_keys mapper).
Proof.
  unfold get_all_pairs. cbn [split_spec bind].
  intro H. apply bind_ok in H as ([da dy] & _ & H). simpl in H.
  destruct (negb _); [discriminate|].
  apply bind_ok in H as (ps & Hs & H). injection H as <-.
  now apply single_entries_ok in Hs.
Qed.

Lemma single_sameby_keys_witness :
  exists mapper,
    dict_get String.eqb "compound"%string (reverse matcher_A) = Some mapper
    /\ forall k ps,
         In (k, ps) [(KVal (VStr "X"), [(0, 1)]); (KVal (VStr "Y"), [(2, 3)])] ->
         ps <> [] /\ exists v, k = KVal v /\ In v (dict_keys mapper).
Proof.
  apply (@single_sameby_keys cpython_rt matcher_A "compound"%string
           (ColName "plate"%string)).
  reflexivity.
Defined.

(** *** The scenarios *)

(** C2.  On the four rows of Scenario A, [get_all_pairs] with
    [sameby="compound"] and [diffby="plate"] returns the mapping
    [{X: [(0, 1)], Y: [(2, 3)]}], for every generator and seed and for every
    runtime that visits the two compound groups in ascending order, as
    CPython does. *)
Theorem scenario_A_pairs (G : NumpyRng) (seed : Z) (rt : PyRuntime) :
  set_iter rt [0; 1] = [0; 1] ->
  set_iter rt [2; 3] = [2; 3] ->
  (r <- Matcher_init G scenario_A ["compound"; "plate"]%string seed None ;;
   get_all_pairs rt (fst (fst r)) (ColName "compound") (ColName "plate"))
  = Ok [(KVal (VStr "X"), [(0, 1)]); (KVal (VStr "Y"), [(2, 3)])].
Proof.
  intros H01 H23. rewrite scenario_A_init.
  cbn. unfold _get_all_pairs_single. cbn. rewrite H01. cbn.
  rewrite set_iter_single. cbn. rewrite set_iter_nil. cbn. rewrite H23. cbn.
  rewrite set_iter_single. cbn. rewrite set_iter_nil. reflexivity.
Qed.

Lemma scenario_A_pairs_witness :
  (r <- Matcher_init lcg scenario_A ["compound"; "plate"]%string 0 None ;;
   get_all_pairs cpython_rt (fst (fst r)) (ColName "compound") (ColName "plate"))
  = Ok [(KVal (VStr "X"), [(0, 1)]); (KVal (VStr "Y"), [(2, 3)])].
Proof.
  apply (@scenario_A_pairs lcg 0%Z cpython_rt); reflexivity.
Defined.

(** C1.  The same column as sameby and as diffby is accepted: on Scenario A,
    [get_all_pairs("compound", "compound")] raises nothing and returns the
    empty mapping.  The test of the source intersects the four column sets
    at once, and two of them are empty here. *)
Theorem overlapping_spec_accepted (G : NumpyRng) (seed : Z) :
  (r <- Matcher_init G scenario_A ["compound"; "plate"]%string seed None ;;
   get_all_pairs cpython_rt (fst (fst r))
     (ColName "compound") (ColName "compound"))
  = Ok []
  /\ common_to_all ["compound"%string] [] ["compound"%string] [] = false.
Proof. split; reflexivity. Qed.

(** C4.  On a row that is null in every diffby-any column the filter
    raises: no column is left in [mapped], and [set.intersection] is called
    without argument.  So does [get_all_pairs] with [sameby="c"] and
    [diffby={"any": ["a", "b"]}] on [null_pair], whose first row meets the
    filter; with the same two columns as diffby-all the null cells are
    skipped and the pair is returned. *)
Theorem filter_diffby_any_all_null (G : NumpyRng) (seed : Z) :
  (r <- Matcher_init G null_pair ["c"; "a"; "b"]%string seed None ;;
   _filter_diffby (fst (fst r)) 0 [] ["a"; "b"]%string [1])
  = Raise (TypeError "unbound method set.intersection() needs an argument")
  /\ (r <- Matcher_init G null_pair ["c"; "a"; "b"]%string seed None ;;
      get_all_pairs cpython_rt (fst (fst r)) (ColName "c")
        (ColDict [] ["a"; "b"]%string))
     = Raise (TypeError "unbound method set.intersection() needs an argument")
  /\ (r <- Matcher_init G null_pair ["c"; "a"; "b"]%string seed None ;;
      get_all_pairs cpython_rt (fst (fst r)) (ColName "c")
        (ColList ["a"; "b"]%string))
     = Ok [(KVal (VStr "X"), [(0, 1)])].
Proof. repeat split; reflexivity. Qed.

(** C3.  On the twelve rows of [two_groups], [get_all_pairs] with
    [sameby={"any": ["a", "b"]}] and no diffby returns the pair of the rows
    1 and 8 in both directions.  The group [{1, 8}] of column [a] is visited
    as 8, 1 and gives [(8, 1)]; the group of column [b] is visited in
    ascending order and gives [(1, 8)] first; the union is sorted, and no
    pair is put in order before it. *)
Theorem sameby_any_symmetric_pairs (G : NumpyRng) (seed : Z) :
  (r <- Matcher_init G two_groups ["a"; "b"]%string seed None ;;
   get_all_pairs cpython_rt (fst (fst r)) (ColDict [] ["a"; "b"]%string)
     (ColList []))
  = Ok [(KNone, [(1, 8); (8, 1)])].
Proof. reflexivity. Qed.

(** *** Null sampling: retries and exhaustion *)

Definition is_value_error (e : exn) : bool :=
  match e with ValueError _ => true | _ => false end.

Lemma foldM_raise (A B : Type) (body : A -> B -> result A) (xs : list B)
  (e : exn) :
  forall acc, foldM body xs acc = Raise e ->
  exists a x, In x xs /\ body a x = Raise e.
Proof.
  induction xs as [|x xs IH]; intros acc H; simpl in H; [discriminate|].
  destruct (body acc x) as [a'|e'] eqn:E; simpl in H.
  - destruct (IH _ H) as (a & y & Hy & Hb). exists a, y. split; [now right|auto].
  - injection H as <-. exists acc, x. split; [now left|auto].
Qed.

Ltac raise_cases H :=
  repeat match type of H with
    | bind ?r _ = Raise _ =>
        let E := fresh "E" in destruct r eqn:E; simpl in H
    | match ?x with _ => _ end = Raise _ =>
        let E := fresh "E" in destruct x eqn:E; simpl in H
    | Raise _ = Raise _ => injection H as <-
    | Ok _ = Raise _ => discriminate H
    end.

Lemma lookup_not_value_error (m : Matcher) (e : exn) :
  (forall c, get_col_ix m c = Raise e -> is_value_error e = false)
  /\ (forall c, get_reverse m c = Raise e -> is_value_error e = false)
  /\ (forall mapper v, get_group mapper v = Raise e -> is_value_error e = false)
  /\ (forall i, get_row m i = Raise e -> is_value_error e = false)
  /\ (forall row i, get_cell row i = Raise e -> is_value_error e = false).
Proof.
  unfold get_col_ix, get_reverse, get_group, get_row, get_cell.
  repeat split; intros; raise_cases H; reflexivity.
Qed.

Lemma filter_diffby_not_value_error (m : Matcher) (idx : nat)
  (da dy : list string) (valid : rowset) (e : exn) :
  _filter_diffby m idx da dy valid = Raise e -> is_value_error e = false.
Proof.
  destruct (lookup_not_value_error m e) as (L1 & L2 & L3 & L4 & L5).
  unfold _filter_diffby. intro H.
  destruct (get_row m idx) as [row|e0] eqn:Er; simpl in H;
    [|injection H as <-; eauto].
  destruct (filter_diffby_all m row da valid) as [valid'|e0] eqn:Ea; simpl in H.
  - destruct dy as [|c dy]; [discriminate|].
    destruct (mapped_any m row (c :: dy)) as [mapped|e0] eqn:Em; simpl in H.
    + destruct mapped; simpl in H; [injection H as <-; reflexivity|discriminate].
    + injection H as <-. unfold mapped_any in Em.
      apply foldM_raise in Em as (a & x & _ & Hb).
      raise_cases Hb; eauto.
  - injection H as <-. unfold filter_diffby_all in Ea.
    apply foldM_raise in Ea as (a & x & _ & Hb).
    raise_cases Hb; eauto.
Qed.

Lemma integers_not_value_error (G : NumpyRng) (batch : nat) (lo hi : Z)
  (st st' : rand_state G) (e : exn) :
  integers batch lo hi st = (Raise e, st') -> is_value_error e = false.
Proof.
  unfold integers, rand_next. intro H.
  destruct (rand_iter st) as [|u rest].
  - destruct (uniform G batch (rng st)) as [[|u rest] g]; inversion H; reflexivity.
  - inversion H.
Qed.

Lemma null_sample_not_value_error (rt : PyRuntime) (G : NumpyRng)
  (batch : nat) (m : Matcher) (da dy : list string) (st st' : rand_state G)
  (e : exn) :
  _null_sample rt batch m da dy st = (Raise e, st') -> is_value_error e = false.
Proof.
  unfold _null_sample. intro H.
  destruct (integers batch 0 (Z.of_nat (length (frozen_valid m)) - 1) st)
    as [[id1|e0] st1] eqn:Ei.
  - destruct ((0 <=? id1)%Z && mem (Z.to_nat id1) (frozen_valid m));
      [|inversion H; reflexivity].
    destruct (_filter_diffby m (Z.to_nat id1) da dy
                (set_diff (frozen_valid m) [Z.to_nat id1])) as [valid|e0] eqn:Ef.
    + destruct (is_empty valid); [inversion H; reflexivity|].
      unfold choice in H.
      destruct (integers batch 0 (Z.of_nat (length (set_iter rt valid)) - 1) st1)
        as [[pos|e1] st2] eqn:Ec.
      * unfold list_item in H.
        destruct (_ && _) in H; [|inversion H; reflexivity].
        destruct (nth_error _ _) in H; inversion H; reflexivity.
      * inversion H; subst. eapply integers_not_value_error; eauto.
    + inversion H; subst. eapply filter_diffby_not_value_error; eauto.
  - inversion H; subst. eapply integers_not_value_error; eauto.
Qed.

(** [n] tries in a row, each from the state the one before has left, that
    all end in [UnpairedException]. *)
Inductive failed_tries (rt : PyRuntime) (G : NumpyRng) (batch : nat)
  (m : Matcher) (da dy : list string)
  : nat -> rand_state G -> rand_state G -> Prop :=
| failed_none (st : rand_state G) : failed_tries rt G batch m da dy 0 st st
| failed_next (n : nat) (st st1 st2 : rand_state G) (msg : string) :
    _null_sample rt batch m da dy st = (Raise (UnpairedException msg), st1) ->
    failed_tries rt G batch m da dy n st1 st2 ->
    failed_tries rt G batch m da dy (S n) st st2.

Definition is_unpaired (r : result rowpair) : bool :=
  match r with Raise (UnpairedException _) => true | _ => false end.

Lemma try_null_sample_exhausted (rt : PyRuntime) (G : NumpyRng) (batch : nat)
  (m : Matcher) (da dy : list string) (n : nat) :
  forall st st' : rand_state G,
    try_null_sample rt batch m n da dy st = (Raise tries_exhausted, st')
    <-> failed_tries rt G batch m da dy n st st'.
Proof.
  induction n as [|n IH]; intros st st'; simpl.
  - split.
    + intro H. injection H as <-. constructor.
    + intro H. inversion H. reflexivity.
  - destruct (_null_sample rt batch m da dy st) as [r st1] eqn:E. split.
    + intro H. destruct r as [p|e]; [discriminate|].
      destruct e as [msg|msg|msg|msg|msg|]; try discriminate.
      * apply null_sample_not_value_error in E. discriminate.
      * eapply failed_next; [exact E|]. now apply IH.
    + intro H. inversion H as [|n0 s0 s1 s2 msg Hs Hrest]; subst.
      rewrite E in Hs. injection Hs as -> ->. now apply IH.
Qed.

Lemma try_null_sample_after_failures (rt : PyRuntime) (G : NumpyRng)
  (batch : nat) (m : Matcher) (da dy : list string) (k : nat) :
  forall (n : nat) (st st1 st2 : rand_state G) (r : result rowpair),
    k < n ->
    failed_tries rt G batch m da dy k st st1 ->
    _null_sample rt batch m da dy st1 = (r, st2) ->
    is_unpaired r = false ->
    try_null_sample rt batch m n da dy st = (r, st2).
Proof.
  induction k as [|k IH]; intros n st st1 st2 r Hk Hf Hs Hr;
    destruct n as [|n]; try lia; simpl.
  - inversion Hf; subst. rewrite Hs.
    destruct r as [p|[]]; try reflexivity. discriminate.
  - inversion Hf as [|n0 s0 s1 s2 msg Hs0 Hrest]; subst.
    rewrite Hs0. eapply IH; eauto. lia.
Qed.

(** The errors that the validation of a specification raises. *)
Definition is_specification_error (e : exn) : Prop :=
  e = ValueError "sameby: any should have more than one column"
  \/ e = ValueError "diffby: any should have more than one column"
  \/ e = ValueError "sameby and diffby must be disjoint lists"
  \/ e = ValueError "sameby, diffby: at least one column should be provided"
  \/ exists missing,
       e = ValueError ("sameby, diffby: " ++ missing ++ " columns not in DataFrame").


(** The matcher [Matcher(one_compound, ["compound"], seed)]. *)
Definition matcher_one_compound : Matcher :=
  {| col_order := [("compound", 0)]%string;
     values := df_rows one_compound;
     reverse := [("compound", [(VStr "X", [0; 1; 2])])]%string;
     frozen_valid := [0; 1; 2];
     col_to_ix := [("compound", 0)]%string;
     columns := ["compound"]%string;
     n_pairs := [("compound", 3)]%string |}.

Lemma one_compound_init (G : NumpyRng) (seed : Z) :
  Matcher_init G one_compound ["compound"]%string seed None
  = Ok (matcher_one_compound, default_rng G seed, []).
Proof. reflexivity. Qed.


(** *** The reverse index *)

Lemma cell_eq_Some (c : cell) (v : value) :
  cell_eq c (Some v) = true <-> c = Some v.
Proof.
  destruct c as [w|]; simpl.
  - rewrite value_eqb_eq. split; congruence.
  - split; discriminate.
Qed.

Lemma positions_from_In (v : value) (col : list cell) :
  forall start i,
    In i (positions_from start v col)
    <-> exists j, i = start + j /\ nth_error col j = Some (Some v).
Proof.
  induction col as [|c col IH]; intros start i; simpl.
  - split; [tauto|]. intros (j & _ & H). destruct j; discriminate.
  - destruct (cell_eq c (Some v)) eqn:E.
    + apply cell_eq_Some in E. subst c. simpl. rewrite IH. split.
      * intros [<-|(j & -> & Hj)].
        -- exists 0. split; [lia|reflexivity].
        -- exists (S j). split; [lia|exact Hj].
      * intros ([|j] & -> & Hj).
        -- left. lia.
        -- right. exists j. split; [lia|exact Hj].
    + rewrite IH. split.
      * intros (j & -> & Hj). exists (S j). split; [lia|exact Hj].
      * intros ([|j] & -> & Hj).
        -- simpl in Hj. injection Hj as ->.
           rewrite (proj2 (cell_eq_Some (Some v) v) eq_refl) in E. discriminate.
        -- exists j. split; [lia|exact Hj].
Qed.

Lemma positions_In (v : value) (col : list cell) (i : nat) :
  In i (positions v col) <-> nth_error col i = Some (Some v).
Proof.
  unfold positions. rewrite positions_from_In. split.
  - intros (j & -> & H). exact H.
  - intro H. exists i. split; [lia|exact H].
Qed.

Inductive ascending : list nat -> Prop :=
| ascending_nil : ascending []
| ascending_cons (x : nat) (l : list nat) :
    (forall y, In y l -> x < y) -> ascending l -> ascending (x :: l).

Lemma positions_from_ascending (v : value) (col : list cell) :
  forall start, ascending (positions_from start v col).
Proof.
  induction col as [|c col IH]; intro start; simpl; [constructor|].
  destruct (cell_eq c (Some v)); [|apply IH].
  constructor; [|apply IH].
  intros y Hy. apply positions_from_In in Hy as (j & -> & _). lia.
Qed.

Lemma set_of_list_ascending (l : list nat) : ascending l -> set_of_list l = l.
Proof.
  induction 1 as [|x l Hx Hl IH]; [reflexivity|].
  unfold set_of_list in *. simpl. rewrite IH.
  destruct l as [|y l]; [reflexivity|]. simpl.
  assert (x < y) as L by (apply Hx; now left).
  apply Nat.ltb_lt in L. now rewrite L.
Qed.

Lemma ascending_NoDup (l : list nat) : ascending l -> NoDup l.
Proof.
  induction 1 as [|x l Hx Hl IH]; constructor; auto.
  intro H. apply Hx in H. lia.
Qed.

Lemma set_add_length (x : nat) (s : rowset) : length (set_add x s) <= S (length s).
Proof.
  induction s as [|y s IH]; simpl; [lia|].
  destruct (x <? y); simpl; [lia|]. destruct (x =? y); simpl; lia.
Qed.

Lemma set_of_list_length (l : list nat) : length (set_of_list l) <= length l.
Proof.
  induction l as [|x l IH]; simpl; [lia|].
  unfold set_of_list in *. simpl.
  pose proof (set_add_length x (fold_right set_add [] l)). lia.
Qed.

Lemma existsb_value_In (v : value) (l : list value) :
  existsb (value_eqb v) l = true <-> In v l.
Proof.
  rewrite existsb_exists. split.
  - intros (w & Hw & E). apply value_eqb_eq in E. now subst.
  - intro H. exists v. split; [exact H|apply value_eqb_refl].
Qed.

Lemma distinct_values_spec (col : list cell) :
  forall seen,
    NoDup (distinct_values col seen)
    /\ forall v, In v (distinct_values col seen)
                 <-> In (Some v) col /\ ~ In v seen.
Proof.
  induction col as [|[w|] col IH]; intro seen; simpl.
  - split; [constructor|]. intro v. tauto.
  - destruct (existsb (value_eqb w) seen) eqn:E.
    + apply existsb_value_In in E. destruct (IH seen) as (N & S).
      split; [exact N|]. intro v. rewrite S. split.
      * intros (H1 & H2). auto.
      * intros ([H|H] & H2); [|auto]. injection H as ->. contradiction.
    + assert (~ In w seen) as Hw.
      { intro H. apply existsb_value_In in H. congruence. }
      destruct (IH (w :: seen)) as (N & S). split.
      * constructor; [|exact N]. rewrite S. simpl. tauto.
      * intro v. simpl. rewrite S. simpl. split.
        -- intros [<-|(H1 & H2)]; [auto|]. split; [auto|tauto].
        -- intros ([H|H] & H2).
           ++ injection H as ->. now left.
           ++ destruct (value_eqb w v) eqn:Ev.
              ** apply value_eqb_eq in Ev. now left.
              ** apply value_eqb_neq in Ev. right. tauto.
  - destruct (IH seen) as (N & S). split; [exact N|].
    intro v. rewrite S. split.
    + intros (H1 & H2). auto.
    + intros ([H|H] & H2); [discriminate|auto].
Qed.

Lemma insert_value_perm (v : value) (l : list value) :
  Permutation (insert_value v l) (v :: l).
Proof.
  induction l as [|w l IH]; simpl; [reflexivity|].
  destruct (value_ltb v w); [reflexivity|].
  rewrite IH. apply perm_swap.
Qed.

Lemma categories_perm (col : list cell) :
  Permutation (categories col) (distinct_values col []).
Proof.
  unfold categories. destruct (sortable _); [|reflexivity].
  induction (distinct_values col []) as [|v l IH]; simpl; [reflexivity|].
  rewrite insert_value_perm. now constructor.
Qed.

Lemma categories_spec (col : list cell) :
  NoDup (categories col)
  /\ forall v, In v (categories col) <-> In (Some v) col.
Proof.
  destruct (distinct_values_spec col []) as (N & S). split.
  - eapply Permutation_NoDup; [symmetry; apply categories_perm|exact N].
  - intro v. split.
    + intro H. apply (Permutation_in _ (categories_perm col)) in H.
      now apply S in H.
    + intro H. apply (Permutation_in _ (Permutation_sym (categories_perm col))).
      apply S. split; [exact H|tauto].
Qed.

Lemma reverse_index_keys (col : list cell) :
  map fst (reverse_index col) = categories col.
Proof.
  unfold reverse_index. rewrite map_map. simpl. apply map_id.
Qed.

Lemma reverse_index_In (col : list cell) (v : value) (rows : list nat) :
  In (v, rows) (reverse_index col)
  <-> In (Some v) col /\ rows = positions v col.
Proof.
  unfold reverse_index. rewrite in_map_iff. split.
  - intros (w & E & H). injection E as -> <-.
    split; [now apply categories_spec|reflexivity].
  - intros (H & ->). exists v. split; [reflexivity|now apply categories_spec].
Qed.

(** *** Construction: clipping and the fields of the matcher *)

(** What [clip_list] has made of the group [orig], given the records the
    logger has received. *)
Definition clip_ok (max_size : option Z) (logs : list warning)
  (orig clipped : list nat) : Prop :=
  match max_size with
  | None => clipped = orig
  | Some k =>
      if negb (k =? 0)%Z && (k <? Z.of_nat (length orig))%Z then
        (0 < k)%Z /\ length clipped = Z.to_nat k /\ incl clipped orig
        /\ In (Sampling_out_of k (length orig)) logs
      else clipped = orig
  end.

Lemma clip_ok_logs (max_size : option Z) (logs logs' : list warning)
  (orig clipped : list nat) :
  incl logs logs' -> clip_ok max_size logs orig clipped ->
  clip_ok max_size logs' orig clipped.
Proof.
  unfold clip_ok. intros Hi. destruct max_size as [k|]; [|auto].
  destruct (_ && _); [|auto]. intros (H1 & H2 & H3 & H4). auto.
Qed.

Lemma choice_indices_spec (G : NumpyRng) (pop : nat) :
  0 < pop ->
  forall n g ixs g',
    choice_indices G n pop g = (ixs, g') ->
    length ixs = n /\ Forall (fun i => i < pop) ixs.
Proof.
  intros Hpop. induction n as [|n IH]; intros g ixs g' H; simpl in H.
  - injection H as <- <-. split; [reflexivity|constructor].
  - pose proof (next_bounded_lt G g Hpop) as Hb.
    destruct (next_bounded G g pop) as [i g1].
    destruct (choice_indices G n pop g1) as [rest g2] eqn:E.
    injection H as <- <-. destruct (IH _ _ _ E) as (L & F).
    split; [simpl; now rewrite L|constructor; auto].
Qed.

Lemma rng_choice_spec (G : NumpyRng) (g g' : bitgen G) (elems sample : list nat)
  (size : nat) :
  0 < length elems ->
  rng_choice G g elems size = (sample, g') ->
  length sample = size /\ incl sample elems.
Proof.
  unfold rng_choice. intros Hpop H.
  destruct (choice_indices G size (length elems) g) as [ixs g1] eqn:E.
  injection H as <- <-.
  destruct (choice_indices_spec G _ Hpop _ _ _ _ E) as (L & F). split.
  - now rewrite length_map.
  - intros x Hx. apply in_map_iff in Hx as (i & <- & Hi).
    apply nth_In. rewrite Forall_forall in F. now apply F.
Qed.

Lemma clip_list_spec (G : NumpyRng) (max_size : option Z) (elems : list nat)
  (st st' : bitgen G * list warning) (clipped : list nat) :
  clip_list G max_size elems st = Ok (clipped, st') ->
  clip_ok max_size (snd st') elems clipped /\ incl (snd st) (snd st').
Proof.
  unfold clip_list, clip_ok. destruct max_size as [k|].
  - destruct (negb (k =? 0)%Z && (k <? Z.of_nat (length elems))%Z) eqn:C.
    + destruct (k <? 0)%Z eqn:N; [discriminate|].
      destruct (rng_choice G (fst st) elems (Z.to_nat k)) as [sample g'] eqn:E.
      intro H. injection H as <- <-. simpl.
      apply andb_true_iff in C as (C1 & C2).
      apply negb_true_iff, Z.eqb_neq in C1.
      apply Z.ltb_lt in C2. apply Z.ltb_ge in N.
      apply rng_choice_spec in E as (L & I); [|lia].
      repeat split; auto; try lia.
      * apply in_or_app. right. now left.
      * intros x Hx. apply in_or_app. now left.
    + intro H. injection H as <- <-. split; [reflexivity|apply incl_refl].
  - intro H. injection H as <- <-. split; [reflexivity|apply incl_refl].
Qed.

Definition group_clipped (max_size : option Z) (logs : list warning)
  (g g' : value * list nat) : Prop :=
  fst g = fst g' /\ clip_ok max_size logs (snd g) (snd g').

Lemma clip_groups_spec (G : NumpyRng) (max_size : option Z)
  (groups : list (value * list nat)) :
  forall (st st' : bitgen G * list warning) groups',
    clip_groups G max_size groups st = Ok (groups', st') ->
    Forall2 (group_clipped max_size (snd st')) groups groups'
    /\ incl (snd st) (snd st').
Proof.
  induction groups as [|[v elems] groups IH]; intros st st' groups' H;
    simpl in H.
  - injection H as <- <-. split; [constructor|apply incl_refl].
  - apply bind_ok in H as ([clipped st1] & Hc & H).
    apply bind_ok in H as ([rest st2] & Hr & H). simpl in H.
    injection H as <- <-.
    apply clip_list_spec in Hc as (C & I1).
    apply IH in Hr as (F & I2). simpl in *. split.
    + constructor; [|exact F]. split; [reflexivity|].
      simpl. eapply clip_ok_logs; eauto.
    + eapply incl_tran; eauto.
Qed.

Lemma build_mappers_spec (G : NumpyRng) (max_size : option Z)
  (vals : list (list cell)) (names : list string) :
  forall (i : nat) (st st' : bitgen G * list warning) mappers,
    build_mappers G max_size vals names i st = Ok (mappers, st') ->
    map fst mappers = names
    /\ incl (snd st) (snd st')
    /\ forall j name,
         nth_error names j = Some name ->
         exists groups,
           nth_error mappers j = Some (name, groups)
           /\ Forall2 (group_clipped max_size (snd st'))
                (reverse_index (column_at (i + j) vals)) groups.
Proof.
  induction names as [|name names IH]; intros i st st' mappers H; simpl in H.
  - injection H as <- <-. split; [reflexivity|]. split; [apply incl_refl|].
    intros [|j] n Hn; discriminate.
  - apply bind_ok in H as ([groups st1] & Hc & H).
    apply bind_ok in H as ([rest st2] & Hr & H). simpl in H.
    injection H as <- <-.
    apply clip_groups_spec in Hc as (F & I1).
    apply IH in Hr as (Hn & I2 & Hj). simpl in *.
    split; [now rewrite Hn|]. split; [eapply incl_tran; eauto|].
    intros [|j] n E; simpl in E.
    + injection E as <-. exists groups. split; [reflexivity|].
      rewrite Nat.add_0_r.
      eapply Forall2_impl; [|exact F].
      intros a b (H1 & H2). split; [exact H1|].
      eapply clip_ok_logs; eauto.
    + destruct (Hj j n E) as (gs & E1 & F1). exists gs.
      split; [exact E1|]. now replace (i + S j) with (S i + j) by lia.
Qed.

Lemma index_of_nth (c : string) (cols : list string) :
  forall i, index_of c cols = Some i -> nth_error cols i = Some c.
Proof.
  induction cols as [|c' cols IH]; intros i H; simpl in H; [discriminate|].
  destruct (String.eqb c c') eqn:E.
  - injection H as <-. apply String.eqb_eq in E. now subst.
  - destruct (index_of c cols) as [j|]; [|discriminate].
    injection H as <-. simpl. now apply IH.
Qed.

Lemma dict_get_enumerate_from (c : string) (cols : list string) :
  forall start,
    dict_get String.eqb c (combine cols (seq start (length cols)))
    = option_map (Nat.add start) (index_of c cols).
Proof.
  induction cols as [|c' cols IH]; intro start; simpl; [reflexivity|].
  destruct (String.eqb c c').
  - simpl. f_equal. lia.
  - rewrite IH. destruct (index_of c cols) as [j|]; simpl; [|reflexivity].
    f_equal. lia.
Qed.

Lemma dict_get_enumerate (c : string) (cols : list string) :
  dict_get String.eqb c (enumerate cols) = index_of c cols.
Proof.
  unfold enumerate. rewrite dict_get_enumerate_from.
  now destruct (index_of c cols).
Qed.

Lemma dict_get_index (V : Type) (c : string) (d : list (string * V)) :
  forall i,
    index_of c (map fst d) = Some i ->
    exists x, nth_error d i = Some (c, x) /\ dict_get String.eqb c d = Some x.
Proof.
  induction d as [|[c' x'] d IH]; intros i H; simpl in H; [discriminate|].
  simpl. destruct (String.eqb c c') eqn:E.
  - injection H as <-. apply String.eqb_eq in E. subst. now exists x'.
  - destruct (index_of c (map fst d)) as [j|]; [|discriminate].
    injection H as <-. simpl. now apply IH.
Qed.

Lemma Forall2_keys (max_size : option Z) (logs : list warning)
  (groups groups' : list (value * list nat)) :
  Forall2 (group_clipped max_size logs) groups groups' ->
  map fst groups' = map fst groups.
Proof.
  induction 1 as [|g g' l l' (H & _) F IH]; simpl; [reflexivity|].
  now rewrite IH, H.
Qed.

Lemma Forall2_In_r (A B : Type) (P : A -> B -> Prop) (l : list A) (l' : list B)
  (b : B) :
  Forall2 P l l' -> In b l' -> exists a, In a l /\ P a b.
Proof.
  induction 1 as [|x y l l' H F IH]; intros Hb; [contradiction|].
  destruct Hb as [<-|Hb].
  - exists x. split; [now left|exact H].
  - destruct (IH Hb) as (a & Ha & Pa). exists a. split; [now right|exact Pa].
Qed.

(** The groups of the reverse index of a column, once clipped and turned
    into sets. *)
Definition as_sets (groups : list (value * list nat)) : list (value * rowset) :=
  map (fun g => (fst g, set_of_list (snd g))) groups.

Lemma Matcher_init_reverse (G : NumpyRng) (dframe : DataFrame)
  (columns : list string) (seed : Z) (max_size : option Z) (m : Matcher)
  (g : bitgen G) (w : list warning) (c : string) (i : nat) :
  Matcher_init G dframe columns seed max_size = Ok (m, g, w) ->
  dict_get String.eqb c (col_to_ix m) = Some i ->
  frozen_valid m = seq 0 (length (values m))
  /\ exists groups,
       dict_get String.eqb c (reverse m) = Some (as_sets groups)
       /\ Forall2 (group_clipped max_size w)
            (reverse_index (column_at i (values m))) groups.
Proof.
  unfold Matcher_init. intros H Hc.
  apply bind_ok in H as (vals & Hv & H).
  destruct (negb (nodupb columns)); [discriminate|].
  apply bind_ok in H as ([mappers [g' w']] & Hb & H).
  injection H as <- <- <-. simpl in *.
  split; [reflexivity|].
  rewrite dict_get_enumerate in Hc.
  apply build_mappers_spec in Hb as (Hn & _ & Hj). simpl in Hj.
  destruct (Hj i c (index_of_nth _ _ _ Hc)) as (groups & E & F).
  exists groups. split; [|exact F].
  set (f := fun mapper : string * list (value * list nat) =>
              (fst mapper, map (fun g0 => (fst g0, set_of_list (snd g0)))
                             (snd mapper))).
  assert (map fst (map f mappers) = columns) as Hk.
  { rewrite map_map. simpl. exact Hn. }
  rewrite <- Hk in Hc.
  destruct (dict_get_index _ _ _ _ Hc) as (x & Hx & Hd).
  rewrite Hd. f_equal.
  rewrite nth_error_map, E in Hx. simpl in Hx. now injection Hx as <-.
Qed.

(** Row [r] of the matcher holds the value [v] in the column of index [i]. *)
Definition row_has (m : Matcher) (r i : nat) (v : value) : Prop :=
  r < length (values m) /\ cell_at m r i = Some v.

Lemma column_at_nth (i r : nat) (vals : list (list cell)) (c : cell) :
  nth_error (column_at i vals) r = Some c
  <-> r < length vals /\ nth i (nth r vals []) None = c.
Proof.
  unfold column_at. rewrite nth_error_map. unfold cell in *. split.
  - intro H. destruct (nth_error vals r) as [row|] eqn:E; simpl in H;
      [|discriminate].
    injection H as <-. split.
    + apply nth_error_Some. congruence.
    + now rewrite (nth_error_nth _ _ _ E).
  - intros (L & <-). rewrite (nth_error_nth' _ [] L). reflexivity.
Qed.

Lemma positions_row_has (m : Matcher) (i r : nat) (v : value) :
  In r (positions v (column_at i (values m))) <-> row_has m r i v.
Proof. rewrite positions_In, column_at_nth. reflexivity. Qed.

Lemma column_has (m : Matcher) (i : nat) (v : value) :
  In (Some v) (column_at i (values m)) <-> exists r, row_has m r i v.
Proof.
  split.
  - intro H. apply In_nth_error in H as (r & H). exists r.
    now apply column_at_nth.
  - intros (r & H). apply column_at_nth in H. eapply nth_error_In; eauto.
Qed.

Lemma clip_ok_subset (max_size : option Z) (logs : list warning)
  (orig clipped : list nat) :
  clip_ok max_size logs orig clipped -> incl clipped orig.
Proof.
  unfold clip_ok. destruct max_size as [k|].
  - destruct (_ && _); [tauto|]. intros ->. apply incl_refl.
  - intros ->. apply incl_refl.
Qed.

Lemma as_sets_In (max_size : option Z) (logs : list warning) (col : list cell)
  (groups : list (value * list nat)) (v : value) (rows : rowset) :
  Forall2 (group_clipped max_size logs) (reverse_index col) groups ->
  In (v, rows) (as_sets groups) ->
  In (Some v) col
  /\ exists clipped,
       rows = set_of_list clipped
       /\ clip_ok max_size logs (positions v col) clipped.
Proof.
  intros F H. unfold as_sets in H.
  apply in_map_iff in H as ([v' clipped] & E & Hg). simpl in E.
  injection E as -> <-.
  destruct (Forall2_In_r _ _ _ _ _ _ F Hg) as ([v0 orig] & H0 & (Hk & Hc)).
  simpl in Hk, Hc. subst v0.
  apply reverse_index_In in H0 as (Hv & ->).
  split; [exact Hv|]. now exists clipped.
Qed.

Lemma as_sets_keys (max_size : option Z) (logs : list warning)
  (col : list cell) (groups : list (value * list nat)) :
  Forall2 (group_clipped max_size logs) (reverse_index col) groups ->
  dict_keys (as_sets groups) = categories col.
Proof.
  intro F. unfold dict_keys, as_sets. rewrite map_map. simpl.
  change (map fst groups = categories col).
  rewrite (Forall2_keys _ _ _ _ F). apply reverse_index_keys.
Qed.

(** The entries of the reverse index of a column of a constructed
    matcher. *)
Lemma reverse_index_facts (G : NumpyRng) (dframe : DataFrame)
  (columns : list string) (seed : Z) (max_size : option Z) (m : Matcher)
  (g : bitgen G) (w : list warning) (c : string) (i : nat) :
  Matcher_init G dframe columns seed max_size = Ok (m, g, w) ->
  dict_get String.eqb c (col_to_ix m) = Some i ->
  exists mapper,
    dict_get String.eqb c (reverse m) = Some mapper
    /\ NoDup (dict_keys mapper)
    /\ (forall v, In v (dict_keys mapper) <-> exists r, row_has m r i v)
    /\ (forall v rows r,
          In (v, rows) mapper -> In r rows -> row_has m r i v)
    /\ (forall v1 rows1 v2 rows2 r,
          In (v1, rows1) mapper -> In (v2, rows2) mapper ->
          In r rows1 -> In r rows2 -> v1 = v2)
    /\ (max_size = None ->
        forall v rows r,
          In (v, rows) mapper -> (In r rows <-> row_has m r i v))
    /\ (max_size = None ->
        forall r,
          (exists v rows, In (v, rows) mapper /\ In r rows)
          <-> In r (frozen_valid m) /\ cell_at m r i <> None).
Proof.
  intros Hi Hc.
  destruct (Matcher_init_reverse _ _ _ _ _ _ _ _ _ _ Hi Hc)
    as (Hf & groups & Hd & F).
  exists (as_sets groups). split; [exact Hd|].
  rewrite (as_sets_keys _ _ _ _ F).
  destruct (categories_spec (column_at i (values m))) as (N & K).
  assert (forall v rows r, In (v, rows) (as_sets groups) -> In r rows ->
                           row_has m r i v) as Sub.
  { intros v rows r Hin Hr.
    destruct (as_sets_In _ _ _ _ _ _ F Hin) as (_ & clipped & -> & Hk).
    apply (proj1 (set_of_list_In _ _)) in Hr. apply clip_ok_subset in Hk.
    now apply positions_row_has, Hk. }
  assert (max_size = None -> forall v rows r,
            In (v, rows) (as_sets groups) -> row_has m r i v -> In r rows)
    as Sup.
  { intros -> v rows r Hin Hr.
    destruct (as_sets_In _ _ _ _ _ _ F Hin) as (_ & clipped & -> & Hk).
    simpl in Hk. subst clipped.
    now apply set_of_list_In, positions_row_has. }
  split; [exact N|]. split; [|split; [exact Sub|split; [|split]]].
  - intro v. rewrite K. apply column_has.
  - intros v1 rows1 v2 rows2 r H1 H2 R1 R2.
    destruct (Sub _ _ _ H1 R1) as (_ & E1).
    destruct (Sub _ _ _ H2 R2) as (_ & E2). congruence.
  - intros Hn v rows r Hin. split; [now apply Sub|now apply Sup].
  - intros Hn r. rewrite Hf, in_seq. split.
    + intros (v & rows & Hin & Hr). destruct (Sub _ _ _ Hin Hr) as (L & E).
      split; [lia|congruence].
    + intros (L & Hnn). destruct (cell_at m r i) as [v|] eqn:E; [|congruence].
      assert (row_has m r i v) as Hr by (split; [lia|exact E]).
      assert (In v (dict_keys (as_sets groups))) as Hv.
      { rewrite (as_sets_keys _ _ _ _ F), K. apply column_has. now exists r. }
      unfold dict_keys in Hv. apply in_map_iff in Hv as ([v' rows] & Ev & Hin).
      simpl in Ev. subst v'. exists v, rows. split; [exact Hin|].
      now apply (Sup Hn v rows r).
Qed.

(** C9, as the code has it.  For every column of a constructed matcher the
    reverse index has one entry per distinct value of the column that is
    not null; each value-set holds only rows with that value, so that the
    sets are pairwise disjoint and a row whose cell is null is in none of
    them; without [max_size] a value-set holds every row with its value,
    and the union of the value-sets is the set of the row identifiers whose
    cell in that column is not null. *)
Theorem reverse_index_partition (G : NumpyRng) (dframe : DataFrame)
  (columns : list string) (seed : Z) (max_size : option Z) (m : Matcher)
  (g : bitgen G) (w : list warning) (c : string) (i : nat) :
  Matcher_init G dframe columns seed max_size = Ok (m, g, w) ->
  dict_get String.eqb c (col_to_ix m) = Some i ->
  exists mapper,
    dict_get String.eqb c (reverse m) = Some mapper
    /\ NoDup (dict_keys mapper)
    /\ (forall v, In v (dict_keys mapper) <-> exists r, row_has m r i v)
    /\ (forall v rows r,
          In (v, rows) mapper -> In r rows -> row_has m r i v)
    /\ (forall v1 rows1 v2 rows2 r,
          In (v1, rows1) mapper -> In (v2, rows2) mapper ->
          In r rows1 -> In r rows2 -> v1 = v2)
    /\ (max_size = None ->
        forall v rows r,
          In (v, rows) mapper -> (In r rows <-> row_has m r i v))
    /\ (max_size = None ->
        forall r,
          (exists v rows, In (v, rows) mapper /\ In r rows)
          <-> In r (frozen_valid m) /\ cell_at m r i <> None).
Proof. apply reverse_index_facts. Qed.

Lemma reverse_index_partition_witness :
  exists mapper,
    dict_get String.eqb "compound"%string (reverse matcher_A) = Some mapper
    /\ NoDup (dict_keys mapper)
    /\ (forall v, In v (dict_keys mapper) <-> exists r, row_has matcher_A r 0 v)
    /\ (forall v rows r,
          In (v, rows) mapper -> In r rows -> row_has matcher_A r 0 v)
    /\ (forall v1 rows1 v2 rows2 r,
          In (v1, rows1) mapper -> In (v2, rows2) mapper ->
          In r rows1 -> In r rows2 -> v1 = v2)
    /\ (@None Z = None ->
        forall v rows r,
          In (v, rows) mapper -> (In r rows <-> row_has matcher_A r 0 v))
    /\ (@None Z = None ->
        forall r,
          (exists v rows, In (v, rows) mapper /\ In r rows)
          <-> In r (frozen_valid matcher_A) /\ cell_at matcher_A r 0 <> None).
Proof.
  apply (@reverse_index_partition lcg scenario_A
           ["compound"; "plate"]%string 0%Z None matcher_A 0%Z []
           "compound"%string 0);
    reflexivity.
Defined.

(** C9, as the claim states it, fails on a null cell: row 0 of [null_row]
    is a row identifier of the matcher and is in no value-set of column
    [a]. *)
Lemma null_row_in_no_value_set :
  exists m g w,
    Matcher_init lcg null_row ["a"; "b"]%string 0 None = Ok (m, g, w)
    /\ In 0 (frozen_valid m)
    /\ exists mapper,
         dict_get String.eqb "a"%string (reverse m) = Some mapper
         /\ ~ exists v rows, In (v, rows) mapper /\ In 0 rows.
Proof.
  eexists _, _, _. split; [reflexivity|]. split; [now left|].
  eexists. split; [reflexivity|].
  intros (v & rows & [E|[]] & H0). injection E as <- <-.
  destruct H0 as [H|[]]. discriminate.
Qed.

Lemma set_of_list_nonempty (l : list nat) : l <> [] -> set_of_list l <> [].
Proof.
  destruct l as [|x l]; [congruence|]. intros _ H.
  assert (In x (set_of_list (x :: l))) as Hx
    by (apply set_of_list_In; now left).
  rewrite H in Hx. contradiction.
Qed.


(** The matcher [Matcher(one_compound, ["compound"], 2, max_size=2)] with
    the generator [lcg], which draws the index 2 twice. *)
Definition matcher_clipped : Matcher :=
  {| col_order := [("compound", 0)]%string;
     values := df_rows one_compound;
     reverse := [("compound", [(VStr "X", [2])])]%string;
     frozen_valid := [0; 1; 2];
     col_to_ix := [("compound", 0)]%string;
     columns := ["compound"]%string;
     n_pairs := [("compound", 1)]%string |}.



(** *** The batches of uniform values are transparent *)

(** The state [st] stands for the generator [g0]: the values left in the
    batch are the next draws of [g0], and [self.rng] is [g0] after them. *)
Definition represents (G : NumpyRng) (st : rand_state G) (g0 : bitgen G) : Prop :=
  uniform G (length (rand_iter st)) g0 = (rand_iter st, rng st).

Definition same_stream (G : NumpyRng) (st1 st2 : rand_state G) : Prop :=
  exists g0, represents G st1 g0 /\ represents G st2 g0.

(** Two runs agree: same outcome, and states that stand for the same
    generator. *)
Definition agree (G : NumpyRng) (A : Type)
  (x y : result A * rand_state G) : Prop :=
  fst x = fst y /\ same_stream G (snd x) (snd y).

Lemma uniform_length (G : NumpyRng) (n : nat) :
  forall g us g', uniform G n g = (us, g') -> length us = n.
Proof.
  induction n as [|n IH]; intros g us g' H; simpl in H.
  - now injection H as <- <-.
  - destruct (next_double G g) as [u g1].
    destruct (uniform G n g1) as [rest g2] eqn:E.
    injection H as <- <-. simpl. f_equal. eapply IH; eauto.
Qed.

Lemma rand_next_represents (G : NumpyRng) (batch : nat) (st : rand_state G)
  (g0 : bitgen G) :
  0 < batch -> represents G st g0 ->
  exists st',
    rand_next batch st = (Ok (fst (next_double G g0)), st')
    /\ represents G st' (snd (next_double G g0)).
Proof.
  unfold represents, rand_next. intros Hb H.
  destruct (rand_iter st) as [|u rest] eqn:Er; simpl in H.
  - injection H as H. rewrite <- H.
    destruct batch as [|b]; [lia|]. simpl.
    destruct (next_double G g0) as [u g1].
    destruct (uniform G b g1) as [rest g2] eqn:E.
    eexists. split; [reflexivity|]. simpl.
    now rewrite (uniform_length _ _ _ _ _ E).
  - destruct (next_double G g0) as [u' g1].
    destruct (uniform G (length rest) g1) as [rest' g2] eqn:E.
    injection H as -> -> H.
    eexists. split; [reflexivity|]. simpl. now rewrite E, H.
Qed.

Lemma rand_next_agree (G : NumpyRng) (b1 b2 : nat) (st1 st2 : rand_state G) :
  0 < b1 -> 0 < b2 -> same_stream G st1 st2 ->
  agree G Q (rand_next b1 st1) (rand_next b2 st2).
Proof.
  intros H1 H2 (g0 & R1 & R2).
  destruct (rand_next_represents G b1 st1 g0 H1 R1) as (s1 & E1 & S1).
  destruct (rand_next_represents G b2 st2 g0 H2 R2) as (s2 & E2 & S2).
  rewrite E1, E2. split; [reflexivity|]. now exists (snd (next_double G g0)).
Qed.

Ltac use_agree H :=
  let r1 := fresh "r" in let s1 := fresh "s" in
  let r2 := fresh "r" in let s2 := fresh "s" in
  let E := fresh "E" in let S := fresh "S" in
  match type of H with
  | agree _ _ ?x ?y =>
      destruct x as [r1 s1]; destruct y as [r2 s2];
      destruct H as [E S]; simpl in E, S; subst r2
  end.

Lemma integers_agree (G : NumpyRng) (b1 b2 : nat) (lo hi : Z)
  (st1 st2 : rand_state G) :
  0 < b1 -> 0 < b2 -> same_stream G st1 st2 ->
  agree G Z (integers b1 lo hi st1) (integers b2 lo hi st2).
Proof.
  intros H1 H2 S. pose proof (rand_next_agree G b1 b2 st1 st2 H1 H2 S) as A.
  unfold integers. use_agree A. destruct r; split; auto.
Qed.

Lemma choice_agree (G : NumpyRng) (b1 b2 : nat) (items : list nat)
  (st1 st2 : rand_state G) :
  0 < b1 -> 0 < b2 -> same_stream G st1 st2 ->
  agree G nat (choice b1 items st1) (choice b2 items st2).
Proof.
  intros H1 H2 S.
  pose proof (integers_agree G b1 b2 0 (Z.of_nat (length items) - 1)
                st1 st2 H1 H2 S) as A.
  unfold choice. use_agree A. destruct r; split; auto.
Qed.

Lemma null_sample_agree (rt : PyRuntime) (G : NumpyRng) (b1 b2 : nat)
  (m : Matcher) (da dy : list string) (st1 st2 : rand_state G) :
  0 < b1 -> 0 < b2 -> same_stream G st1 st2 ->
  agree G rowpair (_null_sample rt b1 m da dy st1)
    (_null_sample rt b2 m da dy st2).
Proof.
  intros H1 H2 S.
  pose proof (integers_agree G b1 b2 0
                (Z.of_nat (length (frozen_valid m)) - 1) st1 st2 H1 H2 S) as A.
  unfold _null_sample. use_agree A.
  destruct r as [id1|e]; [|split; auto].
  destruct (_ && _); [|split; auto].
  destruct (_filter_diffby m (Z.to_nat id1) da dy _) as [valid|e];
    [|split; auto].
  destruct (is_empty valid); [split; auto|].
  pose proof (choice_agree G b1 b2 (set_iter rt valid) s s0 H1 H2 S0) as C.
  use_agree C. destruct r; split; auto.
Qed.

Lemma try_null_sample_agree (rt : PyRuntime) (G : NumpyRng) (b1 b2 : nat)
  (m : Matcher) (da dy : list string) (n : nat) :
  0 < b1 -> 0 < b2 ->
  forall st1 st2 : rand_state G,
    same_stream G st1 st2 ->
    agree G rowpair (try_null_sample rt b1 m n da dy st1)
      (try_null_sample rt b2 m n da dy st2).
Proof.
  intros H1 H2. induction n as [|n IH]; intros st1 st2 S; simpl.
  - split; auto.
  - pose proof (null_sample_agree rt G b1 b2 m da dy st1 st2 H1 H2 S) as A.
    use_agree A. destruct r as [p|e]; [split; auto|].
    destruct e; try (split; auto; fail). now apply IH.
Qed.

Lemma sample_null_pair_agree (rt : PyRuntime) (G : NumpyRng) (b1 b2 : nat)
  (m : Matcher) (diffby : colspec) (n_tries : Z) (st1 st2 : rand_state G) :
  0 < b1 -> 0 < b2 -> same_stream G st1 st2 ->
  agree G rowpair (sample_null_pair rt b1 m diffby n_tries st1)
    (sample_null_pair rt b2 m diffby n_tries st2).
Proof.
  intros H1 H2 S. unfold sample_null_pair.
  destruct (split_spec "diffby" diffby) as [d|e]; [|split; auto].
  now apply try_null_sample_agree.
Qed.

Lemma run_calls_agree (rt : PyRuntime) (G : NumpyRng) (b1 b2 : nat)
  (m : Matcher) (calls : list call) :
  0 < b1 -> 0 < b2 ->
  forall st1 st2 : rand_state G,
    same_stream G st1 st2 ->
    run_calls rt G b1 m calls st1 = run_calls rt G b2 m calls st2.
Proof.
  intros H1 H2. induction calls as [|[diffby n|sameby diffby] calls IH];
    intros st1 st2 S; simpl.
  - reflexivity.
  - pose proof (sample_null_pair_agree rt G b1 b2 m diffby n st1 st2 H1 H2 S)
      as A.
    use_agree A. f_equal. now apply IH.
  - f_equal. now apply IH.
Qed.

Lemma fresh_state_same_stream (G : NumpyRng) (g : bitgen G) :
  same_stream G (fresh_state G g) (fresh_state G g).
Proof. exists g. split; reflexivity. Qed.

(** *** The pairs of the null sampler *)

(** The diffby constraint on the rows [id1] and [id2]: two different rows
    of the matcher; on every diffby-all column where [id1] is not null the
    two cells differ; and, when there are diffby-any columns, the two cells
    differ on one of them where [id1] is not null. *)
Definition diffby_holds (m : Matcher) (da dy : list string) (id1 id2 : nat)
  : Prop :=
  id1 <> id2
  /\ In id1 (frozen_valid m) /\ In id2 (frozen_valid m)
  /\ (forall c i v,
        In c da -> dict_get String.eqb c (col_to_ix m) = Some i ->
        cell_at m id1 i = Some v -> cell_at m id2 i <> Some v)
  /\ (dy <> [] ->
      exists c i v,
        In c dy /\ dict_get String.eqb c (col_to_ix m) = Some i
        /\ cell_at m id1 i = Some v /\ cell_at m id2 i <> Some v).

(** The reverse index holds, under every value, all the rows with it. *)
Definition index_complete (m : Matcher) : Prop :=
  frozen_valid m = seq 0 (length (values m))
  /\ forall c i mapper v rows r,
       dict_get String.eqb c (col_to_ix m) = Some i ->
       dict_get String.eqb c (reverse m) = Some mapper ->
       In (v, rows) mapper ->
       (In r rows <-> row_has m r i v).

Lemma Matcher_init_complete (G : NumpyRng) (dframe : DataFrame)
  (columns : list string) (seed : Z) (m : Matcher) (g : bitgen G)
  (w : list warning) :
  Matcher_init G dframe columns seed None = Ok (m, g, w) ->
  index_complete m.
Proof.
  intro Hi. split.
  - unfold Matcher_init in Hi.
    apply bind_ok in Hi as (vals & _ & Hi).
    destruct (negb (nodupb columns)); [discriminate|].
    apply bind_ok in Hi as (r & _ & Hi). now injection Hi as <- _ _.
  - intros c i mapper v rows r Hc Hm Hin.
    destruct (reverse_index_facts _ _ _ _ _ _ _ _ _ _ Hi Hc)
      as (mapper' & Hm' & _ & _ & _ & _ & Hex & _).
    rewrite Hm in Hm'. injection Hm' as <-. now apply Hex.
Qed.

Lemma dict_get_value_In (v : value) (mapper : list (value * rowset))
  (rows : rowset) :
  dict_get value_eqb v mapper = Some rows -> In (v, rows) mapper.
Proof.
  induction mapper as [|[v' rows'] mapper IH]; simpl; [discriminate|].
  destruct (value_eqb v v') eqn:E.
  - intro H. injection H as ->. apply value_eqb_eq in E. subst. now left.
  - intro H. right. now apply IH.
Qed.

Lemma cell_at_row (m : Matcher) (r i : nat) (row : list cell) (c : cell) :
  nth_error (values m) r = Some row -> nth_error row i = Some c ->
  cell_at m r i = c.
Proof.
  intros Hr Hc. unfold cell_at.
  rewrite (nth_error_nth _ _ _ Hr). now apply nth_error_nth.
Qed.

Ltac ok_cases H :=
  repeat match type of H with
    | bind ?r _ = Ok _ =>
        let E := fresh "E" in
        let x := fresh "x" in
        apply bind_ok in H as (x & E & H)
    end.

Lemma get_col_ix_ok (m : Matcher) (c : string) (i : nat) :
  get_col_ix m c = Ok i -> dict_get String.eqb c (col_to_ix m) = Some i.
Proof.
  unfold get_col_ix. destruct (dict_get _ _ _); [|discriminate].
  now intro H; injection H as ->.
Qed.

Lemma get_cell_ok (row : list cell) (i : nat) (c : cell) :
  get_cell row i = Ok c -> nth_error row i = Some c.
Proof.
  unfold get_cell. destruct (nth_error row i); [|discriminate].
  now intro H; injection H as ->.
Qed.

Lemma get_reverse_ok (m : Matcher) (c : string)
  (mapper : list (value * rowset)) :
  get_reverse m c = Ok mapper ->
  dict_get String.eqb c (reverse m) = Some mapper.
Proof.
  unfold get_reverse. destruct (dict_get _ _ _); [|discriminate].
  now intro H; injection H as ->.
Qed.

Lemma get_group_ok (mapper : list (value * rowset)) (v : value)
  (rows : rowset) :
  get_group mapper v = Ok rows -> In (v, rows) mapper.
Proof.
  unfold get_group. destruct (dict_get _ _ _) eqn:E; [|discriminate].
  intro H; injection H as ->. now apply dict_get_value_In.
Qed.

(** What one column of the row [id1] gives: nothing when the cell is null,
    the rows with the same value otherwise. *)
Lemma same_value_rows (m : Matcher) (id1 : nat) (row : list cell)
  (col : string) (ix : nat) (val : cell) :
  index_complete m ->
  nth_error (values m) id1 = Some row ->
  get_col_ix m col = Ok ix -> get_cell row ix = Ok val ->
  dict_get String.eqb col (col_to_ix m) = Some ix
  /\ cell_at m id1 ix = val
  /\ forall v mapper same,
       val = Some v -> get_reverse m col = Ok mapper ->
       get_group mapper v = Ok same ->
       forall r, In r same <-> row_has m r ix v.
Proof.
  intros (_ & Hc) Hr Hi Hv.
  apply get_col_ix_ok in Hi. apply get_cell_ok in Hv.
  split; [exact Hi|]. split; [now apply cell_at_row with (row := row)|].
  intros v mapper same -> Hm Hg r.
  apply get_reverse_ok in Hm. apply get_group_ok in Hg.
  now apply (Hc col ix mapper v same r).
Qed.

Lemma filter_diffby_all_valid (m : Matcher) (id1 : nat) (row : list cell) :
  index_complete m ->
  nth_error (values m) id1 = Some row ->
  forall da valid valid',
    filter_diffby_all m row da valid = Ok valid' ->
    forall x, In x valid' ->
      In x valid
      /\ forall c i v,
           In c da -> dict_get String.eqb c (col_to_ix m) = Some i ->
           cell_at m id1 i = Some v -> ~ row_has m x i v.
Proof.
  intros Hm Hr. unfold filter_diffby_all.
  induction da as [|c0 da IH]; intros valid valid' H x Hx; simpl in H.
  - injection H as <-. split; [exact Hx|]. intros c i v [].
  - apply bind_ok in H as (valid1 & Hb & H).
    destruct (IH _ _ H x Hx) as (Hx1 & Hrest). clear IH H.
    ok_cases Hb.
    destruct (same_value_rows m id1 row c0 x0 x1 Hm Hr E E0)
      as (Hix & Hcell & Hsame).
    assert (In x valid
            /\ forall v, cell_at m id1 x0 = Some v -> ~ row_has m x x0 v)
      as (Hv & Hc0).
    { destruct x1 as [v0|].
      - ok_cases Hb. injection Hb as <-.
        apply set_diff_In in Hx1 as (Hv & Hn). split; [exact Hv|].
        intros v Ev Hrow. rewrite Hcell in Ev. injection Ev as <-.
        apply Hn. eapply Hsame; eauto.
      - injection Hb as <-. split; [exact Hx1|].
        intros v Ev. congruence. }
    split; [exact Hv|].
    intros c i v [<-|Hin] Hi Hc; [|now apply (Hrest c i v)].
    rewrite Hix in Hi. injection Hi as <-. now apply Hc0.
Qed.

Definition same_value_set (m : Matcher) (id1 : nat) (dy : list string)
  (t : rowset) : Prop :=
  exists c i v,
    In c dy /\ dict_get String.eqb c (col_to_ix m) = Some i
    /\ cell_at m id1 i = Some v
    /\ forall r, In r t <-> row_has m r i v.

Lemma mapped_any_spec (m : Matcher) (id1 : nat) (row : list cell)
  (dy : list string) (mapped : list rowset) :
  index_complete m ->
  nth_error (values m) id1 = Some row ->
  mapped_any m row dy = Ok mapped ->
  Forall (same_value_set m id1 dy) mapped.
Proof.
  intros Hm Hr. unfold mapped_any.
  apply foldM_inv with (P := Forall (same_value_set m id1 dy)); [|constructor].
  intros acc c acc' Hc Hacc Hb. ok_cases Hb.
  destruct (same_value_rows m id1 row c x x0 Hm Hr E E0)
    as (Hix & Hcell & Hsame).
  destruct x0 as [v0|].
  - ok_cases Hb. injection Hb as <-.
    apply Forall_app. split; [exact Hacc|]. constructor; [|constructor].
    exists c, x, v0. repeat split; auto; eapply Hsame; eauto.
  - now injection Hb as <-.
Qed.

Lemma fold_inter_In (rest : list rowset) :
  forall s x,
    In x (fold_left set_inter rest s)
    <-> In x s /\ forall t, In t rest -> In x t.
Proof.
  induction rest as [|t0 rest IH]; intros s x; simpl.
  - intuition.
  - rewrite IH, set_inter_In. split.
    + intros ((H1 & H2) & H3). split; [exact H1|].
      intros t [<-|Ht]; auto.
    + intros (H1 & H2). split; [split; auto|auto].
Qed.

Lemma not_in_intersection (mapped : list rowset) (shared : rowset) (x : nat) :
  set_intersection mapped = Ok shared -> ~ In x shared ->
  exists t, In t mapped /\ ~ In x t.
Proof.
  destruct mapped as [|s rest]; simpl; [discriminate|].
  intro H. injection H as <-. revert s.
  induction rest as [|t0 rest IH]; intros s Hn; simpl in Hn.
  - exists s. split; [now left|exact Hn].
  - destruct (IH _ Hn) as (t & [<-|Ht] & Hx).
    + rewrite set_inter_In in Hx.
      destruct (in_dec Nat.eq_dec x s) as [Hs|Hs].
      * exists t0. split; [right; now left|tauto].
      * exists s. split; [now left|exact Hs].
    + exists t. split; [right; now right|exact Hx].
Qed.

Lemma filter_diffby_valid (m : Matcher) (id1 : nat) (da dy : list string)
  (valid valid' : rowset) :
  index_complete m ->
  _filter_diffby m id1 da dy valid = Ok valid' ->
  forall x, In x valid' ->
    In x valid
    /\ (forall c i v,
          In c da -> dict_get String.eqb c (col_to_ix m) = Some i ->
          cell_at m id1 i = Some v -> ~ row_has m x i v)
    /\ (dy <> [] ->
        exists c i v,
          In c dy /\ dict_get String.eqb c (col_to_ix m) = Some i
          /\ cell_at m id1 i = Some v /\ ~ row_has m x i v).
Proof.
  intros Hm H x Hx. unfold _filter_diffby in H.
  apply bind_ok in H as (row & Hr & H).
  apply bind_ok in H as (valid1 & Ha & H).
  unfold get_row in Hr.
  destruct (nth_error (values m) id1) as [row'|] eqn:En; [|discriminate].
  injection Hr as ->.
  pose proof (filter_diffby_all_valid m id1 row Hm En da valid valid1 Ha) as Hall.
  destruct dy as [|c dy].
  - injection H as <-. destruct (Hall x Hx) as (Hv & Hd).
    split; [exact Hv|]. split; [exact Hd|]. congruence.
  - apply bind_ok in H as (mapped & Hmap & H).
    apply bind_ok in H as (shared & Hs & H). injection H as <-.
    apply set_diff_In in Hx as (Hx1 & Hn).
    destruct (Hall x Hx1) as (Hv & Hd).
    split; [exact Hv|]. split; [exact Hd|]. intros _.
    destruct (not_in_intersection mapped shared x Hs Hn) as (t & Ht & Hxt).
    pose proof (mapped_any_spec m id1 row (c :: dy) mapped Hm En Hmap) as F.
    rewrite Forall_forall in F.
    destruct (F t Ht) as (c' & i & v & Hc & Hi & Hcell & Hrows).
    exists c', i, v. repeat split; auto. intro Hrow. apply Hxt. now apply Hrows.
Qed.

Lemma list_item_In (items : list nat) (pos : Z) (x : nat) :
  list_item items pos = Ok x -> In x items.
Proof.
  unfold list_item. destruct (_ && _); [|discriminate].
  destruct (nth_error items _) eqn:E; [|discriminate].
  intro H. injection H as <-. eapply nth_error_In; eauto.
Qed.

Lemma null_sample_valid (rt : PyRuntime) (G : NumpyRng) (batch : nat)
  (m : Matcher) (da dy : list string) (st st' : rand_state G)
  (id1 id2 : nat) :
  index_complete m ->
  _null_sample rt batch m da dy st = (Ok (id1, id2), st') ->
  diffby_holds m da dy id1 id2.
Proof.
  intros Hm H. unfold _null_sample in H.
  destruct (integers batch 0 _ st) as [[z|e] st1]; [|discriminate].
  destruct ((0 <=? z)%Z && mem (Z.to_nat z) (frozen_valid m)) eqn:Ez;
    [|discriminate].
  apply andb_true_iff in Ez as (_ & Hmem). apply mem_In in Hmem.
  destruct (_filter_diffby m (Z.to_nat z) da dy _) as [valid|e] eqn:Ef;
    [|discriminate].
  destruct (is_empty valid); [discriminate|].
  unfold choice in H.
  destruct (integers batch 0 _ st1) as [[pos|e] st2]; [|discriminate].
  destruct (list_item (set_iter rt valid) pos) as [x|e] eqn:El;
    [|discriminate].
  injection H as E1 E2 _. subst id1 id2.
  apply list_item_In, set_iter_In in El.
  destruct (filter_diffby_valid m _ da dy _ valid Hm Ef x El)
    as (Hv & Hall & Hany).
  apply set_diff_In in Hv as (Hx & Hne).
  assert (x < length (values m)) as Hlt.
  { destruct Hm as (Hf & _). rewrite Hf in Hx. apply in_seq in Hx. lia. }
  unfold diffby_holds. split; [|split; [exact Hmem|split; [exact Hx|split]]].
  - intros E. apply Hne. now left.
  - intros c i v Hc Hi Hcell Hx2. apply (Hall c i v Hc Hi Hcell).
    split; [exact Hlt|exact Hx2].
  - intro Hdy. destruct (Hany Hdy) as (c & i & v & Hc & Hi & Hcell & Hn).
    exists c, i, v. repeat split; auto. intro Hx2. apply Hn.
    split; [exact Hlt|exact Hx2].
Qed.

Lemma try_null_sample_valid (rt : PyRuntime) (G : NumpyRng) (batch : nat)
  (m : Matcher) (da dy : list string) (n : nat) :
  index_complete m ->
  forall (st st' : rand_state G) (id1 id2 : nat),
    try_null_sample rt batch m n da dy st = (Ok (id1, id2), st') ->
    diffby_holds m da dy id1 id2.
Proof.
  intro Hm. induction n as [|n IH]; intros st st' id1 id2 H; simpl in H;
    [discriminate|].
  destruct (_null_sample rt batch m da dy st) as [[p|e] st1] eqn:E.
  - injection H as -> _. eapply null_sample_valid; eauto.
  - destruct e; try discriminate. eapply IH; eauto.
Qed.



(** The matcher [Matcher(one_compound, ["compound"], 2, max_size=1)] with
    the generator [lcg]: the reverse index keeps row 2 only. *)
Definition matcher_clipped_1 : Matcher :=
  {| col_order := [("compound", 0)]%string;
     values := df_rows one_compound;
     reverse := [("compound", [(VStr "X", [2])])]%string;
     frozen_valid := [0; 1; 2];
     col_to_ix := [("compound", 0)]%string;
     columns := ["compound"]%string;
     n_pairs := [("compound", 0)]%string |}.


(** *** Enumeration of a single column without diffby *)

(** All the pairs of a pair collection, whatever their key. *)
Definition all_pairs (d : pairs_dict) : list rowpair := concat (map snd d).

Lemma dict_append_all (k : key) (x p : rowpair) (d : pairs_dict) :
  In p (all_pairs (dict_append key_eqb k x d)) <-> p = x \/ In p (all_pairs d).
Proof.
  unfold all_pairs. induction d as [|[k' xs] d IH]; cbn [dict_append].
  - simpl. intuition.
  - destruct (key_eqb k k'); cbn [map snd concat].
    + rewrite !in_app_iff. simpl. intuition.
    + rewrite !in_app_iff, IH. intuition.
Qed.

Lemma fold_append_all (k : key) (id1 : nat) (ids : list nat) (p : rowpair) :
  forall d,
    In p (all_pairs
            (fold_left (fun pairs id2 => dict_append key_eqb k (id1, id2) pairs)
                       ids d))
    <-> In p (all_pairs d) \/ exists id2, In id2 ids /\ p = (id1, id2).
Proof.
  induction ids as [|id2 ids IH]; intro d; simpl.
  - split; [auto|]. intros [H|(x & [] & _)]. exact H.
  - rewrite IH, dict_append_all. split.
    + intros [[->|H]|(x & Hx & ->)]; eauto.
    + intros [H|(x & [<-|Hx] & ->)]; eauto.
Qed.

Lemma filter_diffby_plain (m : Matcher) (id1 : nat) (valid : rowset) :
  id1 < length (values m) -> _filter_diffby m id1 [] [] valid = Ok valid.
Proof.
  intro H. unfold _filter_diffby, get_row.
  destruct (nth_error (values m) id1) eqn:E; [reflexivity|].
  apply nth_error_None in E. lia.
Qed.

Lemma single_group_plain (rt : PyRuntime) (m : Matcher) (k : key)
  (rows : rowset) (todo : list nat) :
  (forall x, In x todo -> x < length (values m)) ->
  incl todo rows -> NoDup todo ->
  forall processed pairs,
    (forall x, In x todo -> ~ In x processed) ->
    exists r,
      single_group rt m k rows [] [] todo processed pairs = Ok r
      /\ (forall a b,
            In (a, b) (all_pairs r) ->
            In (a, b) (all_pairs pairs)
            \/ (In a rows /\ In b rows /\ a <> b))
      /\ (forall p, In p (all_pairs pairs) -> In p (all_pairs r))
      /\ (forall a b,
            In a todo -> In b todo -> a <> b ->
            In (a, b) (all_pairs r) \/ In (b, a) (all_pairs r)).
Proof.
  induction todo as [|id1 todo IH]; intros Hlt Hin Hnd processed pairs Hp.
  - exists pairs. simpl. repeat split; auto. intros a b [].
  - simpl. rewrite filter_diffby_plain by (apply Hlt; now left). simpl.
    set (processed' := set_add id1 processed).
    match goal with
    | |- context [fold_left ?f ?l pairs] => set (pairs' := fold_left f l pairs)
    end.
    inversion Hnd as [|x l Hx Hnd']; subst.
    destruct (IH (fun x H => Hlt x (or_intror H))
                 (fun x H => Hin x (or_intror H)) Hnd' processed' pairs')
      as (r & Hr & Hsound & Hkeep & Hcompl).
    { intros x Hx' Hpx. apply set_add_In in Hpx as [->|Hpx]; [contradiction|].
      apply (Hp x); [now right|exact Hpx]. }
    assert (forall p, In p (all_pairs pairs')
                      <-> In p (all_pairs pairs)
                          \/ exists id2,
                               In id2 (set_iter rt (set_diff rows processed'))
                               /\ p = (id1, id2)) as Hpairs'
      by (intro p; apply fold_append_all).
    exists r. split; [exact Hr|]. split; [|split].
    + intros a b Hab. destruct (Hsound a b Hab) as [H|H]; [|auto].
      apply Hpairs' in H as [H|(id2 & Hid2 & E)]; [auto|].
      injection E as -> ->. right.
      apply set_iter_In, set_diff_In in Hid2 as (Hb & Hnb).
      split; [apply Hin; now left|]. split; [exact Hb|].
      intros ->. apply Hnb. apply set_add_In. now left.
    + intros p H. apply Hkeep, Hpairs'. now left.
    + intros a b Ha Hb Hab.
      assert (forall y, In y todo -> In (id1, y) (all_pairs r)) as Hfirst.
      { intros y Hy. apply Hkeep, Hpairs'. right. exists y. split; [|reflexivity].
        apply set_iter_In, set_diff_In. split; [apply Hin; now right|].
        intro Hpy. apply set_add_In in Hpy as [->|Hpy]; [contradiction|].
        apply (Hp y); [now right|exact Hpy]. }
      destruct Ha as [<-|Ha], Hb as [<-|Hb].
      * contradiction.
      * left. now apply Hfirst.
      * right. now apply Hfirst.
      * now apply Hcompl.
Qed.

(** The matcher has every row of its reverse index in its table, and no
    row twice in a value-set. *)
Definition index_sound (m : Matcher) : Prop :=
  forall c mapper v rows,
    dict_get String.eqb c (reverse m) = Some mapper ->
    In (v, rows) mapper ->
    NoDup rows /\ forall r, In r rows -> r < length (values m).

Lemma single_plain (rt : PyRuntime) (m : Matcher) (c : string)
  (mapper : list (value * rowset)) :
  index_sound m ->
  dict_get String.eqb c (reverse m) = Some mapper ->
  exists pairs,
    _get_all_pairs_single rt m c [] [] = Ok pairs
    /\ (forall a b,
          In (a, b) (all_pairs pairs) ->
          a <> b /\ exists v rows, In (v, rows) mapper /\ In a rows /\ In b rows)
    /\ (forall v rows a b,
          In (v, rows) mapper -> In a rows -> In b rows -> a <> b ->
          In (a, b) (all_pairs pairs) \/ In (b, a) (all_pairs pairs)).
Proof.
  intros Hs Hm. unfold _get_all_pairs_single, get_reverse. rewrite Hm. simpl.
  assert (forall v rows, In (v, rows) mapper ->
            NoDup rows /\ forall r, In r rows -> r < length (values m)) as Hg
    by (intros v rows; apply (Hs c mapper v rows Hm)).
  clear Hm Hs.
  assert (forall acc,
    exists pairs,
      foldM (fun pairs item =>
               single_group rt m (KVal (fst item)) (snd item) [] []
                 (set_iter rt (snd item)) [] pairs) mapper acc = Ok pairs
      /\ (forall a b,
            In (a, b) (all_pairs pairs) ->
            In (a, b) (all_pairs acc)
            \/ (a <> b /\ exists v rows,
                  In (v, rows) mapper /\ In a rows /\ In b rows))
      /\ (forall p, In p (all_pairs acc) -> In p (all_pairs pairs))
      /\ (forall v rows a b,
            In (v, rows) mapper -> In a rows -> In b rows -> a <> b ->
            In (a, b) (all_pairs pairs) \/ In (b, a) (all_pairs pairs)))
    as Hfold.
  { induction mapper as [|[v rows] mapper IH]; intro acc.
    - exists acc. simpl. repeat split; auto. intros v rows a b [].
    - destruct (Hg v rows (or_introl eq_refl)) as (Hnd & Hlt).
      destruct (single_group_plain rt m (KVal v) rows (set_iter rt rows)
                  (fun x H => Hlt x (proj1 (set_iter_In rt rows x) H))
                  (fun x H => proj1 (set_iter_In rt rows x) H)
                  (set_iter_NoDup rt rows Hnd) [] acc (fun x _ H => H))
        as (r & Hr & Hsound & Hkeep & Hcompl).
      destruct (IH (fun v0 rows0 H => Hg v0 rows0 (or_intror H)) r)
        as (pairs & Hp & Hsound' & Hkeep' & Hcompl').
      exists pairs. simpl. rewrite Hr. simpl. split; [exact Hp|].
      split; [|split].
      + intros a b Hab. destruct (Hsound' a b Hab) as [H|(Hne & v0 & rows0 & H)].
        * destruct (Hsound a b H) as [H'|(Ha & Hb & Hne)]; [auto|].
          right. split; [exact Hne|]. exists v, rows. split; [now left|auto].
        * right. split; [exact Hne|]. exists v0, rows0.
          split; [now right|tauto].
      + intros p H. now apply Hkeep', Hkeep.
      + intros v0 rows0 a b [E|Hin] Ha Hb Hne.
        * injection E as <- <-.
          destruct (Hcompl a b (proj2 (set_iter_In rt rows a) Ha)
                      (proj2 (set_iter_In rt rows b) Hb) Hne) as [H|H];
            [left|right]; now apply Hkeep'.
        * now apply (Hcompl' v0 rows0). }
  destruct (Hfold []) as (pairs & Hp & Hsound & _ & Hcompl).
  exists pairs. split; [exact Hp|]. split; [|exact Hcompl].
  intros a b Hab. destruct (Hsound a b Hab) as [[]|H]. exact H.
Qed.

(** *** Construction of the multilabel adapter *)

Lemma set_add_ascending (x : nat) (s : rowset) :
  ascending s -> ascending (set_add x s).
Proof.
  induction 1 as [|y s Hy Hs IH]; simpl.
  - constructor; [intros z []|constructor].
  - destruct (x <? y) eqn:L.
    + apply Nat.ltb_lt in L. constructor; [|now constructor].
      intros z [<-|Hz]; [exact L|]. apply Hy in Hz. lia.
    + destruct (x =? y) eqn:E; [now constructor|].
      apply Nat.ltb_ge in L. apply Nat.eqb_neq in E.
      constructor; [|exact IH].
      intros z Hz. apply set_add_In in Hz as [->|Hz]; [lia|now apply Hy].
Qed.

Lemma set_of_list_NoDup (l : list nat) : NoDup (set_of_list l).
Proof.
  apply ascending_NoDup. induction l as [|x l IH]; [constructor|].
  unfold set_of_list in *. simpl. now apply set_add_ascending.
Qed.

Lemma Matcher_init_sound (G : NumpyRng) (dframe : DataFrame)
  (columns : list string) (seed : Z) (max_size : option Z) (m : Matcher)
  (g : bitgen G) (w : list warning) :
  Matcher_init G dframe columns seed max_size = Ok (m, g, w) ->
  index_sound m.
Proof.
  intros Hi c mapper v rows Hm Hin.
  assert (exists i, dict_get String.eqb c (col_to_ix m) = Some i) as (i & Hc).
  { unfold Matcher_init in Hi.
    apply bind_ok in Hi as (vals & _ & Hi).
    destruct (negb (nodupb columns)); [discriminate|].
    apply bind_ok in Hi as ([mappers st] & Hb & Hi).
    injection Hi as <- _ _. simpl in *.
    apply build_mappers_spec in Hb as (Hn & _ & _).
    rewrite dict_get_enumerate. rewrite <- Hn.
    clear Hn Hin. induction mappers as [|[c' x] mappers IH]; simpl in *;
      [discriminate|].
    destruct (String.eqb c c'); [eauto|].
    destruct (IH Hm) as (i & ->). simpl. eauto. }
  destruct (Matcher_init_reverse _ _ _ _ _ _ _ _ _ _ Hi Hc)
    as (_ & groups & Hd & F).
  destruct (reverse_index_facts _ _ _ _ _ _ _ _ _ _ Hi Hc)
    as (mapper' & Hm' & _ & _ & Hsub & _).
  rewrite Hm in Hm'. injection Hm' as <-.
  split.
  - rewrite Hm in Hd. injection Hd as ->.
    destruct (as_sets_In _ _ _ _ _ _ F Hin) as (_ & clipped & -> & _).
    apply set_of_list_NoDup.
  - intros r Hr. now destruct (Hsub v rows r Hin Hr).
Qed.

Lemma Matcher_init_values (G : NumpyRng) (dframe : DataFrame)
  (cols : list string) (seed : Z) (max_size : option Z) (m : Matcher)
  (g : bitgen G) (w : list warning) :
  Matcher_init G dframe cols seed max_size = Ok (m, g, w) ->
  select_columns dframe cols = Ok (values m)
  /\ col_to_ix m = enumerate cols
  /\ columns m = cols.
Proof.
  unfold Matcher_init. intro Hi.
  apply bind_ok in Hi as (vals & Hv & Hi).
  destruct (negb (nodupb cols)); [discriminate|].
  apply bind_ok in Hi as (r & _ & Hi). injection Hi as <- _ _. auto.
Qed.

Lemma Forall2_nth_error (A B : Type) (P : A -> B -> Prop) (l : list A)
  (l' : list B) :
  Forall2 P l l' ->
  forall j a, nth_error l j = Some a ->
  exists b, nth_error l' j = Some b /\ P a b.
Proof.
  induction 1 as [|x y l l' H F IH]; intros [|j] a Hj; try discriminate.
  - injection Hj as <-. now exists y.
  - now apply IH.
Qed.

Lemma index_of_app_last (c : string) (cs : list string) :
  ~ In c cs -> index_of c (cs ++ [c]) = Some (length cs).
Proof.
  induction cs as [|c' cs IH]; intro H; simpl.
  - now rewrite String.eqb_refl.
  - destruct (String.eqb c c') eqn:E.
    + apply String.eqb_eq in E. subst. exfalso. apply H. now left.
    + rewrite IH; [reflexivity|]. intro Hc. apply H. now right.
Qed.

Lemma select_columns_cell (dframe : DataFrame) (columns : list string)
  (vals : list (list cell)) (c : string) (j k e : nat) (row : list cell) :
  select_columns dframe columns = Ok vals ->
  index_of c columns = Some j ->
  index_of c (df_columns dframe) = Some k ->
  nth_error (df_rows dframe) e = Some row ->
  nth j (nth e vals []) None = nth k row None.
Proof.
  unfold select_columns. intros Hs Hj Hk He.
  apply bind_ok in Hs as (ixs & Hx & Hs). injection Hs as <-.
  apply mapM_ok in Hx.
  destruct (Forall2_nth_error _ _ _ _ _ Hx j c (index_of_nth _ _ _ Hj))
    as (k' & Hk' & E).
  rewrite Hk in E. injection E as <-.
  assert (nth_error
            (map (fun row0 : list cell => map (fun i => nth i row0 None) ixs)
                 (df_rows dframe)) e
          = Some (map (fun i => nth i row None) ixs)) as Hrow
    by (rewrite nth_error_map; unfold cell in *; now rewrite He).
  unfold cell in *. rewrite (nth_error_nth _ _ _ Hrow).
  apply nth_error_nth. now rewrite nth_error_map, Hk'.
Qed.

(** One exploded row of [row] with the labels [ls]. *)
Definition exploded_of (row : list cell) (ls : list value) (r : list cell)
  : Prop :=
  (ls = [] /\ r = row ++ [None])
  \/ exists l, In l ls /\ r = row ++ [Some l].

Lemma explode_row_In (i o : nat) (row r : list cell) (ls : list value) :
  In (o, r) (explode_row i row ls) <-> o = i /\ exploded_of row ls r.
Proof.
  unfold explode_row, exploded_of. destruct ls as [|l ls].
  - simpl. split.
    + intros [E|[]]. injection E as <- <-. auto.
    + intros (-> & [(_ & ->)|(l & [] & _)]). now left.
  - rewrite in_map_iff. split.
    + intros (x & E & Hx). injection E as <- <-. split; [reflexivity|].
      right. now exists x.
    + intros (-> & [(E & _)|(x & Hx & ->)]); [discriminate|]. now exists x.
Qed.

Lemma explode_from_In (rows : list (list cell)) :
  forall (labels : list (list value)) (s o : nat) (r : list cell),
    In (o, r) (explode_from s rows labels)
    <-> exists row ls,
          s <= o /\ nth_error rows (o - s) = Some row
          /\ nth_error labels (o - s) = Some ls /\ exploded_of row ls r.
Proof.
  induction rows as [|row rows IH]; intros labels s o r; simpl.
  - split; [tauto|]. intros (row & ls & _ & H & _).
    destruct (o - s); discriminate.
  - destruct labels as [|ls labels]; simpl.
    + split; [tauto|]. intros (row' & ls' & _ & _ & H & _).
      destruct (o - s); discriminate.
    + rewrite in_app_iff, explode_row_In, IH. split.
      * intros [(-> & H)|(row' & ls' & Hs & Hr & Hl & H)].
        -- exists row, ls. rewrite Nat.sub_diag. auto.
        -- exists row', ls'. replace (o - s) with (S (o - S s)) by lia.
           split; [lia|auto].
      * intros (row' & ls' & Hs & Hr & Hl & H).
        destruct (o - s) as [|d] eqn:E.
        -- left. simpl in Hr, Hl. injection Hr as <-. injection Hl as <-.
           split; [lia|exact H].
        -- right. exists row', ls'. replace (o - S s) with d by lia.
           split; [lia|auto].
Qed.

(** *** Mapping the pairs back to the original rows *)

Lemma mapM_total (A B : Type) (f : A -> result B) (g : A -> B) (xs : list A) :
  (forall x, In x xs -> f x = Ok (g x)) -> mapM f xs = Ok (map g xs).
Proof.
  induction xs as [|x xs IH]; intro H; simpl; [reflexivity|].
  rewrite (H x (or_introl eq_refl)). simpl.
  rewrite IH; [reflexivity|]. intros y Hy. apply H. now right.
Qed.

(** The original rows of a pair of exploded rows. *)
Definition original_pair (mm : MatcherMultilabel) (p : rowpair) : rowpair :=
  (nth (fst p) (original_index mm) 0, nth (snd p) (original_index mm) 0).

Lemma get_original_nth (mm : MatcherMultilabel) (e : nat) :
  e < length (original_index mm) ->
  get_original mm e = Ok (nth e (original_index mm) 0).
Proof.
  intro H. unfold get_original.
  now rewrite (nth_error_nth' _ 0 H).
Qed.

Lemma map_values_false (mm : MatcherMultilabel) (vals : list rowpair) :
  vals <> [] ->
  (forall a b, In (a, b) vals ->
     a < length (original_index mm) /\ b < length (original_index mm)) ->
  map_values mm false vals = Ok (map (original_pair mm) vals).
Proof.
  intros Hne Hlt. unfold map_values.
  destruct vals as [|p vals]; [congruence|].
  cbn [np_array].
  rewrite (mapM_total _ _ _ (original_pair mm)); [reflexivity|].
  intros [a b] Hab. destruct (Hlt a b Hab) as (Ha & Hb). simpl.
  rewrite (get_original_nth mm a Ha), (get_original_nth mm b Hb). reflexivity.
Qed.

Lemma map_pairs_false (mm : MatcherMultilabel) (pairs : pairs_dict) :
  (forall k ps, In (k, ps) pairs -> ps <> []) ->
  (forall a b, In (a, b) (all_pairs pairs) ->
     a < length (original_index mm) /\ b < length (original_index mm)) ->
  exists same,
    map_pairs mm false pairs = Ok same
    /\ all_pairs same = map (original_pair mm) (all_pairs pairs).
Proof.
  intros Hne Hlt.
  exists (map (fun item => (fst item, map (original_pair mm) (snd item))) pairs).
  split.
  - unfold map_pairs. apply mapM_total. intros [k ps] Hin. simpl.
    rewrite map_values_false; [reflexivity|now apply (Hne k)|].
    intros a b Hab. apply Hlt. unfold all_pairs. apply in_concat.
    exists ps. split; [|exact Hab].
    apply in_map_iff. now exists (k, ps).
  - unfold all_pairs. rewrite map_map. simpl.
    rewrite concat_map, map_map. reflexivity.
Qed.

Lemma labels_disjoint_false (a b : list value) :
  labels_disjoint a b = false <-> exists v, In v a /\ In v b.
Proof.
  unfold labels_disjoint. rewrite negb_false_iff, existsb_exists. split.
  - intros (v & Ha & Hb). apply existsb_value_In in Hb. eauto.
  - intros (v & Ha & Hb). exists v. split; [exact Ha|].
    now apply existsb_value_In.
Qed.

Lemma dedup_values_In (l : list value) (v : value) :
  In v (dedup_values l) <-> In v l.
Proof.
  induction l as [|w l IH]; simpl; [tauto|].
  destruct (existsb (value_eqb w) l) eqn:E.
  - rewrite IH. apply existsb_value_In in E. split; [auto|].
    intros [<-|H]; auto.
  - simpl. rewrite IH. tauto.
Qed.

Lemma map_values_true (mm : MatcherMultilabel) (vals kept : list rowpair) :
  map_values mm true vals = Ok kept ->
  forall a b, In (a, b) kept ->
    exists la lb,
      nth_error (multilabel_set mm) a = Some la
      /\ nth_error (multilabel_set mm) b = Some lb
      /\ labels_disjoint la lb = true.
Proof.
  unfold map_values. destruct (np_array vals) as [|rows]; [discriminate|].
  intro H. apply bind_ok in H as (mapped & _ & H).
  eapply foldM_inv
    with (P := fun kept : list rowpair => forall a b, In (a, b) kept ->
                 exists la lb,
                   nth_error (multilabel_set mm) a = Some la
                   /\ nth_error (multilabel_set mm) b = Some lb
                   /\ labels_disjoint la lb = true); [| |exact H].
  - intros acc [a b] acc' _ Hacc Hb. ok_cases Hb. simpl in E, E0.
    unfold get_labels in E, E0.
    destruct (nth_error (multilabel_set mm) a) as [la|] eqn:Ea; [|discriminate].
    destruct (nth_error (multilabel_set mm) b) as [lb|] eqn:Eb; [|discriminate].
    injection E as <-. injection E0 as <-.
    destruct (labels_disjoint la lb) eqn:Ed; injection Hb as <-; [|exact Hacc].
    intros a' b' Hin. apply in_app_iff in Hin as [Hin|[Hin|[]]];
      [now apply Hacc|].
    injection Hin as <- <-. now exists la, lb.
  - intros a b [].
Qed.

Lemma map_pairs_true (mm : MatcherMultilabel) (pairs mapped : pairs_dict) :
  map_pairs mm true pairs = Ok mapped ->
  forall k ps a b, In (k, ps) mapped -> In (a, b) ps ->
    exists la lb,
      nth_error (multilabel_set mm) a = Some la
      /\ nth_error (multilabel_set mm) b = Some lb
      /\ labels_disjoint la lb = true.
Proof.
  unfold map_pairs. intros H k ps a b Hin Hab.
  apply mapM_ok in H.
  destruct (Forall2_In_r _ _ _ _ _ _ H Hin) as (item & _ & Hitem).
  apply bind_ok in Hitem as (vals & Hv & E). injection E as _ <-.
  now apply (map_values_true mm (snd item) vals Hv).
Qed.

Lemma combinations2_seq (n : nat) :
  forall s a b, In (a, b) (combinations2 (seq s n)) -> s <= a /\ a < b /\ b < s + n.
Proof.
  induction n as [|n IH]; intros s a b H; simpl in H; [contradiction|].
  apply in_app_iff in H as [H|H].
  - apply in_map_iff in H as (y & E & Hy). injection E as <- <-.
    apply in_seq in Hy. lia.
  - apply IH in H. lia.
Qed.

(** *** Exploded rows and label sets *)

(** What ties the matcher on the exploded table to the label sets: [j] is
    the index of the multilabel column in the matcher; an exploded row
    holds the label [l] exactly when [l] is a label of its original row. *)
Record multilabel_linked (mm : MatcherMultilabel) (j : nat) : Prop := {
  ml_complete : index_complete (matcher mm);
  ml_sound : index_sound (matcher mm);
  ml_col :
    dict_get String.eqb (multilabel_col mm) (col_to_ix (matcher mm)) = Some j;
  ml_in_columns : In (multilabel_col mm) (columns (matcher mm));
  ml_mapper :
    exists mapper,
      dict_get String.eqb (multilabel_col mm) (reverse (matcher mm))
      = Some mapper
      /\ forall v r,
           row_has (matcher mm) r j v -> exists rows, In (v, rows) mapper;
  ml_size : length (multilabel_set mm) = size mm;
  ml_orig_len : length (original_index mm) = length (values (matcher mm));
  ml_row_label :
    forall e l,
      row_has (matcher mm) e j l ->
      nth e (original_index mm) 0 < size mm
      /\ In l (nth (nth e (original_index mm) 0) (multilabel_set mm) []);
  ml_label_row :
    forall o l,
      o < size mm -> In l (nth o (multilabel_set mm) []) ->
      exists e,
        row_has (matcher mm) e j l /\ nth e (original_index mm) 0 = o
}.

Lemma In_index_of (c : string) (cs : list string) :
  In c cs -> exists j, index_of c cs = Some j.
Proof.
  induction cs as [|c' cs IH]; intros H; [contradiction|]. simpl.
  destruct (String.eqb c c') eqn:E; [eauto|].
  destruct H as [->|H]; [now rewrite String.eqb_refl in E|].
  destruct (IH H) as (j & ->). simpl. eauto.
Qed.

Lemma select_columns_length (dframe : DataFrame) (columns : list string)
  (vals : list (list cell)) :
  select_columns dframe columns = Ok vals ->
  length vals = length (df_rows dframe).
Proof.
  unfold select_columns. intro H. apply bind_ok in H as (ixs & _ & H).
  injection H as <-. apply length_map.
Qed.

Lemma exploded_last_cell (row r : list cell) (ls : list value) :
  exploded_of row ls r ->
  exists lc,
    r = row ++ [lc]
    /\ forall l, lc = Some l <-> In l ls /\ r = row ++ [Some l].
Proof.
  intros [(-> & ->)|(l & Hl & ->)].
  - exists None. split; [reflexivity|]. intro l. split; [discriminate|].
    intros ([] & _).
  - exists (Some l). split; [reflexivity|]. intro l'. split.
    + intro E. injection E as <-. auto.
    + intros (_ & E). apply app_inj_tail in E as (_ & E). exact E.
Qed.

Lemma init_linked (G : NumpyRng) (dframe : DataFrame)
  (labels : list (list value)) (columns : list string) (mc : string)
  (seed : Z) (mm : MatcherMultilabel) (g : bitgen G) (w : list warning) :
  MatcherMultilabel_init G dframe labels columns mc seed = Ok (mm, g, w) ->
  length labels = length (df_rows dframe) ->
  Forall (fun row => length row = length (df_columns dframe)) (df_rows dframe) ->
  ~ In mc (df_columns dframe) ->
  In mc columns ->
  multilabel_col mm = mc
  /\ size mm = length (df_rows dframe)
  /\ multilabel_set mm = map dedup_values labels
  /\ exists j, multilabel_linked mm j.
Proof.
  unfold MatcherMultilabel_init. intros Hi Hlen Hrows Hmc Hcol.
  apply bind_ok in Hi as ([[m g'] w'] & Hm & Hi). injection Hi as <- _ _.
  cbn [fst snd] in *.
  set (ex := explode_from 0 (df_rows dframe) labels) in *.
  repeat split; try reflexivity.
  destruct (Matcher_init_values _ _ _ _ _ _ _ _ Hm) as (Hv & Hix & Hcols).
  cbn [df_columns df_rows] in *.
  destruct (In_index_of mc columns Hcol) as (j & Hj).
  pose proof (select_columns_length _ _ _ Hv) as Hvlen.
  cbn [df_rows] in Hvlen. rewrite length_map in Hvlen.
  assert (forall e o r,
            nth_error ex e = Some (o, r) ->
            exists row ls lc,
              nth_error (df_rows dframe) o = Some row
              /\ nth_error labels o = Some ls
              /\ r = row ++ [lc]
              /\ (forall l, lc = Some l <-> In l ls /\ r = row ++ [Some l])
              /\ cell_at m e j = lc) as Hcell.
  { intros e o r He.
    pose proof (nth_error_In _ _ He) as Hin. unfold ex in Hin.
    apply explode_from_In in Hin as (row & ls & _ & Hr & Hl & Hex).
    rewrite Nat.sub_0_r in Hr, Hl.
    destruct (exploded_last_cell row r ls Hex) as (lc & -> & Hlc).
    exists row, ls, lc. split; [exact Hr|]. split; [exact Hl|].
    split; [reflexivity|]. split; [exact Hlc|].
    unfold cell_at.
    transitivity (nth (length (df_columns dframe)) (row ++ [lc]) None).
    - apply (select_columns_cell _ _ _ mc j (length (df_columns dframe)) e
               (row ++ [lc]) Hv Hj).
      + cbn [df_columns]. now apply index_of_app_last.
      + cbn [df_rows]. rewrite nth_error_map. unfold cell in *.
        now rewrite He.
    - rewrite Forall_forall in Hrows.
      rewrite <- (Hrows row (nth_error_In _ _ Hr)).
      rewrite app_nth2, Nat.sub_diag by lia. reflexivity. }
  exists j. constructor; cbn [matcher multilabel_col size multilabel_set
                              original_index].
  - eapply Matcher_init_complete; eauto.
  - eapply Matcher_init_sound; eauto.
  - rewrite Hix. now rewrite dict_get_enumerate.
  - now rewrite Hcols.
  - assert (dict_get String.eqb mc (col_to_ix m) = Some j) as Hcj
      by (rewrite Hix; now rewrite dict_get_enumerate).
    destruct (reverse_index_facts _ _ _ _ _ _ _ _ _ _ Hm Hcj)
      as (mapper & Hmap & _ & Hkeys & _).
    exists mapper. split; [exact Hmap|]. intros v r Hr.
    assert (In v (dict_keys mapper)) as Hk by (apply Hkeys; now exists r).
    unfold dict_keys in Hk. apply in_map_iff in Hk as ([v' rows] & E & Hin).
    simpl in E. subst v'. now exists rows.
  - now rewrite length_map.
  - now rewrite length_map, Hvlen.
  - intros e l (Hlt & Hc).
    rewrite Hvlen in Hlt.
    destruct (nth_error ex e) as [[o r]|] eqn:He;
      [|apply nth_error_None in He; lia].
    destruct (Hcell e o r He) as (row & ls & lc & Hr & Hl & -> & Hlc & Hce).
    rewrite Hc in Hce. symmetry in Hce. apply Hlc in Hce as (Hin & _).
    assert (nth e (map fst ex) 0 = o) as Ho.
    { apply nth_error_nth. now rewrite nth_error_map, He. }
    rewrite Ho. split.
    + apply nth_error_Some. congruence.
    + assert (nth_error (map dedup_values labels) o = Some (dedup_values ls))
        as Hd by (now rewrite nth_error_map, Hl).
      rewrite (nth_error_nth _ _ _ Hd). now apply dedup_values_In.
  - intros o l Ho Hin.
    destruct (nth_error labels o) as [ls|] eqn:Hl;
      [|apply nth_error_None in Hl; lia].
    destruct (nth_error (df_rows dframe) o) as [row|] eqn:Hr;
      [|apply nth_error_None in Hr; lia].
    assert (nth_error (map dedup_values labels) o = Some (dedup_values ls))
      as Hd by (now rewrite nth_error_map, Hl).
    rewrite (nth_error_nth _ _ _ Hd) in Hin.
    apply (proj1 (dedup_values_In _ _)) in Hin.
    assert (In (o, row ++ [Some l]) ex) as Hex.
    { unfold ex. apply explode_from_In. exists row, ls.
      rewrite Nat.sub_0_r. repeat split; auto; try lia.
      right. exists l. split; [exact Hin|reflexivity]. }
    apply In_nth_error in Hex as (e & He).
    destruct (Hcell e o _ He) as (row' & ls' & lc & _ & _ & Er & _ & Hce).
    apply app_inj_tail in Er as (_ & <-).
    exists e. split.
    + split; [|exact Hce]. rewrite Hvlen. apply nth_error_Some. congruence.
    + apply nth_error_nth. now rewrite nth_error_map, He.
Qed.

(** *** The pairs of original rows that share a label *)

Lemma in_cols_In (c : string) (cs : list string) :
  in_cols c cs = true <-> In c cs.
Proof.
  unfold in_cols. rewrite existsb_exists. split.
  - intros (x & Hx & E). apply String.eqb_eq in E. now subst.
  - intro H. exists c. split; [exact H|apply String.eqb_refl].
Qed.

Lemma unordered_in_true (x : rowpair) (pairs : list rowpair) :
  unordered_in x pairs = true
  <-> In x pairs \/ In (snd x, fst x) pairs.
Proof.
  unfold unordered_in. rewrite existsb_exists. destruct x as [a b]. simpl.
  split.
  - intros ([p q] & Hp & H). simpl in H.
    apply orb_true_iff in H as [H|H]; apply andb_true_iff in H as (H1 & H2);
      apply Nat.eqb_eq in H1, H2; subst; auto.
  - intros [H|H].
    + exists (a, b). split; [exact H|]. simpl. now rewrite !Nat.eqb_refl.
    + exists (b, a). split; [exact H|]. simpl.
      rewrite !Nat.eqb_refl. apply orb_true_r.
Qed.

Lemma get_all_pairs_multilabel_column (rt : PyRuntime) (m : Matcher)
  (mc : string) :
  In mc (columns m) ->
  get_all_pairs rt m (ColName mc) (ColList [])
  = _get_all_pairs_single rt m mc [] [].
Proof.
  intro H. apply in_cols_In in H. unfold get_all_pairs. simpl.
  rewrite H. simpl. now destruct (_get_all_pairs_single rt m mc [] []).
Qed.

(** The pairs of [self.get_all_pairs(self.multilabel_col, [])]: the call
    returns, and an unordered pair of different original rows is among its
    pairs exactly when the two label sets meet. *)
Lemma linked_same_pairs (rt : PyRuntime) (mm : MatcherMultilabel) (j : nat) :
  multilabel_linked mm j ->
  exists pairs same,
    get_all_pairs rt (matcher mm) (ColName (multilabel_col mm)) (ColList [])
    = Ok pairs
    /\ map_pairs mm false pairs = Ok same
    /\ forall a b,
         a <> b -> a < size mm -> b < size mm ->
         unordered_in (a, b) (concat (map snd same))
         = negb (labels_disjoint (nth a (multilabel_set mm) [])
                                 (nth b (multilabel_set mm) [])).
Proof.
  intros L. destruct L as [Hcompl Hsound Hcol Hincol (mapper & Hmap & Hkeys)
                             Hsize Hlen Hrow Hlab].
  set (m := matcher mm) in *. set (mc := multilabel_col mm) in *.
  destruct (single_plain rt m mc mapper Hsound Hmap)
    as (pairs & Hp & Hps & Hpc).
  assert (forall v rows e, In (v, rows) mapper ->
                           (In e rows <-> row_has m e j v)) as Hrows.
  { intros v rows e Hin. destruct Hcompl as (_ & Hc).
    now apply (Hc mc j mapper v rows e). }
  destruct (map_pairs_false mm pairs) as (same & Hsame & Hall).
  { destruct (single_entries_ok rt m mc [] [] pairs Hp) as (mp & _ & Hok).
    intros k ps Hin. now destruct (Hok k ps Hin). }
  { intros a b Hab. destruct (Hps a b Hab) as (_ & v & rows & Hin & Ha & Hb).
    rewrite Hlen. destruct (Hsound mc mapper v rows Hmap Hin) as (_ & Hlt).
    split; now apply Hlt. }
  exists pairs, same.
  split; [now rewrite get_all_pairs_multilabel_column|].
  split; [exact Hsame|].
  intros a b Hne Ha Hb. fold (all_pairs same). rewrite Hall.
  destruct (labels_disjoint _ _) eqn:Ed; simpl.
  - (* no common label: no pair of exploded rows maps to a and b *)
    destruct (unordered_in _ _) eqn:Eu; [|reflexivity]. exfalso.
    assert (forall x y, In (x, y) (map (original_pair mm) (all_pairs pairs)) ->
              exists v, In v (nth x (multilabel_set mm) [])
                        /\ In v (nth y (multilabel_set mm) [])) as Hshare.
    { intros x y Hin. apply in_map_iff in Hin as ([e1 e2] & E & Hin).
      unfold original_pair in E. simpl in E. injection E as <- <-.
      destruct (Hps e1 e2 Hin) as (_ & v & rows & Hg & H1 & H2).
      apply (Hrows v rows) in H1, H2; auto.
      exists v. split; [now apply Hrow in H1|now apply Hrow in H2]. }
    apply unordered_in_true in Eu as [H|H]; simpl in H;
      apply Hshare in H as (v & H1 & H2).
    + assert (labels_disjoint (nth a (multilabel_set mm) [])
                (nth b (multilabel_set mm) []) = false) as F
        by (apply labels_disjoint_false; eauto).
      congruence.
    + assert (labels_disjoint (nth a (multilabel_set mm) [])
                (nth b (multilabel_set mm) []) = false) as F
        by (apply labels_disjoint_false; eauto).
      congruence.
  - (* a common label: two exploded rows of its group map to a and b *)
    apply labels_disjoint_false in Ed as (v & Hva & Hvb).
    destruct (Hlab a v Ha Hva) as (e1 & Hr1 & Ho1).
    destruct (Hlab b v Hb Hvb) as (e2 & Hr2 & Ho2).
    destruct (Hkeys v e1 Hr1) as (rows & Hg).
    assert (e1 <> e2) as Hne' by (intros ->; congruence).
    apply unordered_in_true. simpl.
    destruct (Hpc v rows e1 e2 Hg (proj2 (Hrows v rows e1 Hg) Hr1)
                (proj2 (Hrows v rows e2 Hg) Hr2) Hne') as [H|H].
    + left. apply in_map_iff. exists (e1, e2). split; [|exact H].
      unfold original_pair. simpl. now rewrite Ho1, Ho2.
    + right. apply in_map_iff. exists (e2, e1). split; [|exact H].
      unfold original_pair. simpl. now rewrite Ho1, Ho2.
Qed.

(** The two label sets of a pair of original rows do not meet. *)
Definition disjoint_labels (mm : MatcherMultilabel) (p : rowpair) : bool :=
  labels_disjoint (nth (fst p) (multilabel_set mm) [])
                  (nth (snd p) (multilabel_set mm) []).

Lemma filter_only_multilabel (mc : string) (diffby : list string) :
  filter (fun c => negb (String.eqb mc c)) diffby = []
  <-> forall c, In c diffby -> c = mc.
Proof.
  induction diffby as [|c diffby IH]; simpl.
  - split; [intros _ c []|reflexivity].
  - destruct (String.eqb mc c) eqn:E; simpl.
    + apply String.eqb_eq in E. subst c. rewrite IH. split.
      * intros H c [<-|Hc]; auto.
      * intros H c Hc. apply H. now right.
    + split; [discriminate|]. intro H.
      rewrite (H c (or_introl eq_refl)) in E.
      now rewrite String.eqb_refl in E.
Qed.

Lemma linked_complement (rt : PyRuntime) (mm : MatcherMultilabel) (j : nat)
  (sameby : colspec) (diffby : list string) :
  multilabel_linked mm j ->
  In (multilabel_col mm) diffby ->
  (forall c, In c diffby -> c = multilabel_col mm) ->
  spec_is_empty sameby = true ->
  multi_get_all_pairs rt mm sameby diffby
  = Ok [(KNone, filter (disjoint_labels mm) (combinations2 (seq 0 (size mm))))].
Proof.
  intros L Hin Hall Hs. unfold multi_get_all_pairs.
  rewrite (proj2 (in_cols_In _ _) Hin).
  rewrite (proj2 (filter_only_multilabel _ _) Hall), Hs. simpl.
  destruct (linked_same_pairs rt mm j L) as (pairs & same & Hp & Hsame & Hu).
  rewrite Hp. simpl. rewrite Hsame. simpl.
  unfold only_diffby_multi_from. do 3 f_equal.
  apply filter_ext_in. intros [a b] Hab.
  apply combinations2_seq in Hab. unfold disjoint_labels. simpl.
  rewrite Hu by lia. apply negb_involutive.
Qed.


(** The adapter of Scenario E. *)
Definition adapter_E : MatcherMultilabel :=
  {| multilabel_col := "c";
     size := 3;
     multilabel_set := scenario_E_labels;
     original_index := [0; 0; 1; 2];
     matcher :=
       {| col_order := [("c", 0)]%string;
          values := [[str "a"]; [str "b"]; [str "b"]; [str "c"]];
          reverse :=
            [("c", [(VStr "a", [0]); (VStr "b", [1; 2]); (VStr "c", [3])])]%string;
          frozen_valid := [0; 1; 2; 3];
          col_to_ix := [("c", 0)]%string;
          columns := ["c"]%string;
          n_pairs := [("c", 1)]%string |} |}.


(** Scenario E: with [diffby=["c"]] the pair (0, 1) is left out, the pairs
    (0, 2) and (1, 2) are returned. *)
Lemma scenario_E_pairs :
  multi_get_all_pairs cpython_rt adapter_E (ColList []) ["c"%string]
  = Ok [(KNone, [(0, 2); (1, 2)])].
Proof. reflexivity. Qed.

(** ** Further properties of the engine *)

(** *** The pairs of a single sameby column, for every iteration order *)

Lemma filter_diffby_all_subset (m : Matcher) (row : list cell)
  (da : list string) :
  forall valid valid',
    filter_diffby_all m row da valid = Ok valid' ->
    incl valid' valid /\ (NoDup valid -> NoDup valid').
Proof.
  unfold filter_diffby_all.
  induction da as [|c da IH]; intros valid valid' H; simpl in H.
  - injection H as <-. split; [apply incl_refl|auto].
  - apply bind_ok in H as (valid1 & Hb & H).
    destruct (IH _ _ H) as (I1 & N1). ok_cases Hb.
    destruct x0 as [v|].
    + ok_cases Hb. injection Hb as <-. split.
      * intros y Hy. apply I1 in Hy. now apply set_diff_In in Hy.
      * intro N. apply N1. now apply set_diff_NoDup.
    + injection Hb as <-. auto.
Qed.

Lemma filter_diffby_subset (m : Matcher) (id1 : nat) (da dy : list string)
  (valid valid' : rowset) :
  _filter_diffby m id1 da dy valid = Ok valid' ->
  incl valid' valid /\ (NoDup valid -> NoDup valid').
Proof.
  unfold _filter_diffby. intro H.
  apply bind_ok in H as (row & _ & H).
  apply bind_ok in H as (valid1 & Ha & H).
  apply filter_diffby_all_subset in Ha as (I1 & N1).
  destruct dy as [|c dy].
  - injection H as <-. auto.
  - ok_cases H. injection H as <-. split.
    + intros y Hy. apply set_diff_In in Hy. now apply I1.
    + intro N. apply set_diff_NoDup. auto.
Qed.

Lemma dict_append_perm (k : key) (x : rowpair) (d : pairs_dict) :
  Permutation (all_pairs (dict_append key_eqb k x d)) (x :: all_pairs d).
Proof.
  unfold all_pairs. induction d as [|[k' xs] d IH]; cbn [dict_append].
  - reflexivity.
  - destruct (key_eqb k k'); cbn [map snd concat].
    + rewrite <- app_assoc. simpl.
      symmetry. apply Permutation_middle.
    + rewrite IH. symmetry. apply Permutation_middle.
Qed.

Lemma fold_append_perm (k : key) (id1 : nat) (ids : list nat) :
  forall d,
    Permutation
      (all_pairs
         (fold_left (fun pairs id2 => dict_append key_eqb k (id1, id2) pairs)
                    ids d))
      (map (fun id2 => (id1, id2)) ids ++ all_pairs d).
Proof.
  induction ids as [|id2 ids IH]; intro d; simpl; [reflexivity|].
  rewrite IH, dict_append_perm. symmetry. apply Permutation_middle.
Qed.

(** No pair twice, no pair of a row with itself, no pair in both
    directions. *)
Definition pairs_good (l : list rowpair) : Prop :=
  NoDup l /\ forall a b, In (a, b) l -> a <> b /\ ~ In (b, a) l.

Lemma pairs_good_perm (l l' : list rowpair) :
  Permutation l l' -> pairs_good l -> pairs_good l'.
Proof.
  intros P (N & H). split.
  - eapply Permutation_NoDup; eauto.
  - intros a b Hab. apply (Permutation_in _ (Permutation_sym P)) in Hab.
    destruct (H a b Hab) as (H1 & H2). split; [exact H1|].
    intro Hba. apply H2. eapply Permutation_in; [symmetry|]; eauto.
Qed.

Lemma pairs_good_add_row (id1 : nat) (ids : list nat) (l : list rowpair) :
  pairs_good l -> NoDup ids -> ~ In id1 ids ->
  (forall x y, In (x, y) l -> x <> id1 /\ ~ In x ids) ->
  pairs_good (map (fun id2 => (id1, id2)) ids ++ l).
Proof.
  intros (N & H) Nids Hid Hl.
  assert (forall a b, In (a, b) (map (fun id2 => (id1, id2)) ids)
                      <-> a = id1 /\ In b ids) as Hnew.
  { intros a b. rewrite in_map_iff. split.
    - intros (y & E & Hy). injection E as E1 E2. subst. auto.
    - intros (-> & Hb). now exists b. }
  split.
  - apply NoDup_app.
    + apply Finite.Injective_map_NoDup; [|exact Nids].
      intros x y E. now injection E.
    + exact N.
    + intros [a b] Hp Hp'. apply Hnew in Hp as (-> & Hb).
      now destruct (Hl id1 b Hp').
  - intros a b Hab. apply in_app_iff in Hab as [Hab|Hab].
    + apply Hnew in Hab as (-> & Hb).
      split; [intros ->; contradiction|].
      intro Hba. apply in_app_iff in Hba as [Hba|Hba].
      * apply Hnew in Hba as (-> & _). contradiction.
      * destruct (Hl b id1 Hba) as (_ & Hn). contradiction.
    + destruct (H a b Hab) as (H1 & H2). split; [exact H1|].
      intro Hba. apply in_app_iff in Hba as [Hba|Hba]; [|contradiction].
      apply Hnew in Hba as (-> & Ha).
      now destruct (Hl a id1 Hab).
Qed.

Lemma single_group_good (rt : PyRuntime) (m : Matcher) (k : key)
  (rows : rowset) (da dy : list string) :
  forall todo processed pairs r,
    NoDup rows -> NoDup todo -> incl todo rows ->
    (forall x, In x todo -> ~ In x processed) ->
    pairs_good (all_pairs pairs) ->
    (forall x y, In (x, y) (all_pairs pairs) ->
       ~ In x rows \/ In x processed) ->
    single_group rt m k rows da dy todo processed pairs = Ok r ->
    pairs_good (all_pairs r)
    /\ (forall x y, In (x, y) (all_pairs r) ->
          In (x, y) (all_pairs pairs) \/ In x rows).
Proof.
  induction todo as [|id1 todo IH];
    intros processed pairs r Nrows Ntodo Hsub Hfresh Hgood Hold H;
    simpl in H.
  - injection H as <-. auto.
  - apply bind_ok in H as (valid & Hf & H).
    apply filter_diffby_subset in Hf as (Hincl & Hnd).
    assert (NoDup (set_iter rt valid)) as Nids.
    { apply set_iter_NoDup, Hnd. now apply set_diff_NoDup. }
    assert (forall y, In y (set_iter rt valid) ->
              In y rows /\ y <> id1 /\ ~ In y processed) as Hids.
    { intros y Hy. apply set_iter_In in Hy. apply Hincl in Hy.
      apply set_diff_In in Hy as (Hy & Hn). split; [exact Hy|].
      split; intro; apply Hn; apply set_add_In; auto. }
    inversion Ntodo as [|? ? Hid1 Ntodo']; subst.
    pose proof (fold_append_perm k id1 (set_iter rt valid) pairs) as P.
    apply IH in H; auto.
    + destruct H as (Hg & Hprov). split; [exact Hg|].
      intros x y Hxy. destruct (Hprov x y Hxy) as [Hin|Hin]; [|now right].
      apply (Permutation_in _ P) in Hin.
      apply in_app_iff in Hin as [Hin|Hin]; [|now left].
      apply in_map_iff in Hin as (z & E & _). injection E as E1 E2. subst.
      right. apply Hsub. now left.
    + intros x Hx. apply Hsub. now right.
    + intros x Hx Hp. apply set_add_In in Hp as [->|Hp]; [contradiction|].
      apply (Hfresh x); [now right|exact Hp].
    + apply (pairs_good_perm _ _ (Permutation_sym P)).
      apply pairs_good_add_row; auto.
      * intro Hy. apply Hids in Hy. tauto.
      * intros x y Hxy. destruct (Hold x y Hxy) as [Hn|Hp].
        -- split.
           ++ intros ->. apply Hn, Hsub. now left.
           ++ intro Hx. apply Hids in Hx. tauto.
        -- split.
           ++ intros ->. apply (Hfresh id1); [now left|exact Hp].
           ++ intro Hx. apply Hids in Hx. tauto.
    + intros x y Hxy. apply (Permutation_in _ P) in Hxy.
      apply in_app_iff in Hxy as [Hin|Hin].
      * apply in_map_iff in Hin as (z & E & _). injection E as E1 E2. subst.
        right. apply set_add_In. now left.
      * destruct (Hold x y Hin) as [Hn|Hp]; [now left|].
        right. apply set_add_In. now right.
Qed.

(** The groups of a mapper share no row. *)
Definition groups_apart (groups : list (value * rowset)) : Prop :=
  ForallOrdPairs
    (fun g1 g2 : value * rowset => forall r, In r (snd g1) -> ~ In r (snd g2))
    groups.

Lemma groups_apart_of_keys (groups : list (value * rowset)) :
  NoDup (dict_keys groups) ->
  (forall v1 rows1 v2 rows2 r,
     In (v1, rows1) groups -> In (v2, rows2) groups ->
     In r rows1 -> In r rows2 -> v1 = v2) ->
  groups_apart groups.
Proof.
  unfold groups_apart, dict_keys.
  induction groups as [|[v rows] groups IH]; intros N H; [constructor|].
  simpl in N. inversion N as [|? ? Hv N']; subst. constructor.
  - apply Forall_forall. intros [v2 rows2] Hin r Hr Hr2. simpl in *.
    apply Hv. apply in_map_iff. exists (v2, rows2). split; [|exact Hin].
    simpl. symmetry. eapply (H v rows v2 rows2 r); eauto.
  - apply IH; [exact N'|].
    intros v1 rows1 v2 rows2 r H1 H2. apply (H v1 rows1 v2 rows2 r); now right.
Qed.

Lemma single_groups_good (rt : PyRuntime) (m : Matcher) (da dy : list string) :
  forall groups acc r,
    (forall v rows, In (v, rows) groups -> NoDup rows) ->
    groups_apart groups ->
    pairs_good (all_pairs acc) ->
    (forall x y g, In (x, y) (all_pairs acc) -> In g groups ->
       ~ In x (snd g)) ->
    foldM (fun pairs item =>
             single_group rt m (KVal (fst item)) (snd item) da dy
               (set_iter rt (snd item)) [] pairs)
          groups acc = Ok r ->
    pairs_good (all_pairs r).
Proof.
  induction groups as [|[v rows] groups IH];
    intros acc r Hnd Hap Hgood Hold H; simpl in H.
  - now injection H as <-.
  - apply bind_ok in H as (acc1 & H1 & H).
    inversion Hap as [|? ? Hhead Hap']; subst.
    assert (NoDup rows) as Nrows by (apply (Hnd v); now left).
    apply single_group_good in H1 as (Hg1 & Hprov); auto.
    + apply IH in H; auto.
      * intros v' rows' Hin. apply (Hnd v'). now right.
      * intros x y g Hxy Hg. destruct (Hprov x y Hxy) as [Hin|Hin].
        -- apply (Hold x y g Hin). now right.
        -- rewrite Forall_forall in Hhead. now apply (Hhead g Hg x).
    + now apply set_iter_NoDup.
    + intros x Hx. now apply set_iter_In in Hx.
    + intros x y Hxy. left. apply (Hold x y (v, rows) Hxy). now left.
Qed.

Lemma key_eqb_KVal (v : value) (k : key) :
  key_eqb (KVal v) k = true -> k = KVal v.
Proof.
  destruct k as [|v'|vs]; simpl; try discriminate.
  intro E. apply value_eqb_eq in E. now subst.
Qed.

(** How a pair [(a, b)] comes out of the loop over the group [rows]: [a] is
    a row of the group and [b] is left of a part of the group without [a]
    by [_filter_diffby]. *)
Definition emitted_by (m : Matcher) (da dy : list string) (rows : rowset)
  (a b : nat) : Prop :=
  In a rows
  /\ exists valid valid',
       incl valid rows /\ ~ In a valid
       /\ _filter_diffby m a da dy valid = Ok valid' /\ In b valid'.

Definition entries_from (m : Matcher) (da dy : list string)
  (mapper : list (value * rowset)) (d : pairs_dict) : Prop :=
  forall k ps a b, In (k, ps) d -> In (a, b) ps ->
    exists v rows,
      k = KVal v /\ In (v, rows) mapper /\ emitted_by m da dy rows a b.

Lemma dict_append_entries_from (m : Matcher) (da dy : list string)
  (mapper : list (value * rowset)) (v : value) (rows : rowset) (a b : nat)
  (d : pairs_dict) :
  In (v, rows) mapper -> emitted_by m da dy rows a b ->
  entries_from m da dy mapper d ->
  entries_from m da dy mapper (dict_append key_eqb (KVal v) (a, b) d).
Proof.
  intros Hv He. induction d as [|[k' xs] d IH]; intros Hd k ps a' b' Hin Hp;
    cbn [dict_append] in Hin.
  - destruct Hin as [E|[]]. injection E as <- <-.
    destruct Hp as [E|[]]. injection E as <- <-. exists v, rows. auto.
  - destruct (key_eqb (KVal v) k') eqn:Ek.
    + destruct Hin as [E|Hin].
      * injection E as <- <-. apply in_app_iff in Hp as [Hp|Hp].
        -- apply (Hd k' xs); [now left|exact Hp].
        -- destruct Hp as [E|[]]. injection E as <- <-.
           apply key_eqb_KVal in Ek. exists v, rows. auto.
      * apply (Hd k ps); [now right|exact Hp].
    + destruct Hin as [E|Hin].
      * injection E as <- <-. apply (Hd k' xs); [now left|exact Hp].
      * apply (IH (fun k0 ps0 a0 b0 H0 => Hd k0 ps0 a0 b0 (or_intror H0))
                  k ps a' b' Hin Hp).
Qed.

Lemma single_group_entries_from (rt : PyRuntime) (m : Matcher)
  (da dy : list string) (mapper : list (value * rowset)) (v : value)
  (rows : rowset) :
  In (v, rows) mapper ->
  forall todo processed pairs r,
    incl todo rows ->
    entries_from m da dy mapper pairs ->
    single_group rt m (KVal v) rows da dy todo processed pairs = Ok r ->
    entries_from m da dy mapper r.
Proof.
  intro Hv. induction todo as [|id1 todo IH];
    intros processed pairs r Hsub Hp H; simpl in H.
  - now injection H as <-.
  - apply bind_ok in H as (valid & Hf & H).
    eapply IH; [| |exact H].
    + intros x Hx. apply Hsub. now right.
    + assert (forall ids d,
                incl ids (set_iter rt valid) ->
                entries_from m da dy mapper d ->
                entries_from m da dy mapper
                  (fold_left
                     (fun pairs id2 =>
                        dict_append key_eqb (KVal v) (id1, id2) pairs)
                     ids d)) as Hfold.
      { induction ids as [|id2 ids IHi]; intros d Hi Hd; simpl; auto.
        apply IHi; [intros x Hx; apply Hi; now right|].
        apply (dict_append_entries_from m da dy mapper v rows); auto.
        split; [apply Hsub; now left|].
        exists (set_diff rows (set_add id1 processed)), valid.
        split; [intros x Hx; now apply set_diff_In in Hx|].
        split.
        - intro Hx. apply set_diff_In in Hx as (_ & Hn).
          apply Hn, set_add_In. now left.
        - split; [exact Hf|]. apply (set_iter_In rt). apply Hi. now left. }
      apply Hfold; [apply incl_refl|exact Hp].
Qed.

Lemma single_entries_from (rt : PyRuntime) (m : Matcher) (c : string)
  (da dy : list string) (mapper : list (value * rowset)) (pairs : pairs_dict) :
  dict_get String.eqb c (reverse m) = Some mapper ->
  _get_all_pairs_single rt m c da dy = Ok pairs ->
  entries_from m da dy mapper pairs.
Proof.
  unfold _get_all_pairs_single, get_reverse. intros -> H. simpl in H.
  eapply foldM_inv with (P := entries_from m da dy mapper); [| |exact H].
  - intros a [v rows] a' Hitem Ha Hbody. simpl in Hbody.
    eapply single_group_entries_from; [exact Hitem| |exact Ha|exact Hbody].
    intros x Hx. now apply set_iter_In in Hx.
  - intros k ps a b [].
Qed.

Lemma single_good (rt : PyRuntime) (m : Matcher) (c : string)
  (da dy : list string) (mapper : list (value * rowset)) (pairs : pairs_dict) :
  dict_get String.eqb c (reverse m) = Some mapper ->
  (forall v rows, In (v, rows) mapper -> NoDup rows) ->
  groups_apart mapper ->
  _get_all_pairs_single rt m c da dy = Ok pairs ->
  pairs_good (all_pairs pairs).
Proof.
  unfold _get_all_pairs_single, get_reverse. intros -> Hnd Hap H. simpl in H.
  eapply single_groups_good; [exact Hnd|exact Hap| | |exact H].
  - split; [constructor|intros a b []].
  - intros x y g [].
Qed.

(** The loop over one group when [_filter_diffby] returns, on every row of
    the group, the candidates that are [ok] with it. *)
Lemma single_group_total (rt : PyRuntime) (m : Matcher) (k : key)
  (rows : rowset) (da dy : list string) (ok : nat -> nat -> Prop)
  (todo : list nat) :
  (forall id1 valid,
     In id1 todo -> incl valid rows ->
     exists valid',
       _filter_diffby m id1 da dy valid = Ok valid'
       /\ forall x, In x valid' <-> In x valid /\ ok id1 x) ->
  incl todo rows -> NoDup todo ->
  forall processed pairs,
    (forall x, In x todo -> ~ In x processed) ->
    exists r,
      single_group rt m k rows da dy todo processed pairs = Ok r
      /\ (forall a b,
            In (a, b) (all_pairs r) ->
            In (a, b) (all_pairs pairs)
            \/ (In a rows /\ In b rows /\ a <> b /\ ok a b))
      /\ (forall p, In p (all_pairs pairs) -> In p (all_pairs r))
      /\ (forall a b,
            In a todo -> In b todo -> a <> b -> ok a b -> ok b a ->
            In (a, b) (all_pairs r) \/ In (b, a) (all_pairs r)).
Proof.
  induction todo as [|id1 todo IH]; intros Hf Hin Hnd processed pairs Hp.
  - exists pairs. simpl. repeat split; auto. intros a b [].
  - simpl.
    set (processed' := set_add id1 processed).
    destruct (Hf id1 (set_diff rows processed') (or_introl eq_refl))
      as (valid' & Hv & Hvalid).
    { intros x Hx. now apply set_diff_In in Hx. }
    rewrite Hv. simpl.
    match goal with
    | |- context [fold_left ?f ?l pairs] => set (pairs' := fold_left f l pairs)
    end.
    inversion Hnd as [|x l Hx Hnd']; subst.
    destruct (IH (fun i v H => Hf i v (or_intror H))
                 (fun x H => Hin x (or_intror H)) Hnd' processed' pairs')
      as (r & Hr & Hsound & Hkeep & Hcompl).
    { intros x Hx' Hpx. apply set_add_In in Hpx as [->|Hpx]; [contradiction|].
      apply (Hp x); [now right|exact Hpx]. }
    assert (forall p, In p (all_pairs pairs')
                      <-> In p (all_pairs pairs)
                          \/ exists id2,
                               In id2 (set_iter rt valid') /\ p = (id1, id2))
      as Hpairs' by (intro p; apply fold_append_all).
    exists r. split; [exact Hr|]. split; [|split].
    + intros a b Hab. destruct (Hsound a b Hab) as [H|H]; [|auto].
      apply Hpairs' in H as [H|(id2 & Hid2 & E)]; [auto|].
      injection E as -> ->. right.
      apply set_iter_In, Hvalid in Hid2 as (Hid2 & Hok).
      apply set_diff_In in Hid2 as (Hb & Hnb).
      split; [apply Hin; now left|]. split; [exact Hb|].
      split; [|exact Hok].
      intros ->. apply Hnb. apply set_add_In. now left.
    + intros p H. apply Hkeep, Hpairs'. now left.
    + intros a b Ha Hb Hab Hok1 Hok2.
      assert (forall y, In y todo -> ok id1 y ->
                        In (id1, y) (all_pairs r)) as Hfirst.
      { intros y Hy Hoky. apply Hkeep, Hpairs'. right. exists y.
        split; [|reflexivity].
        apply set_iter_In, Hvalid. split; [|exact Hoky].
        apply set_diff_In. split; [apply Hin; now right|].
        intro Hpy. apply set_add_In in Hpy as [->|Hpy]; [contradiction|].
        apply (Hp y); [now right|exact Hpy]. }
      destruct Ha as [<-|Ha], Hb as [<-|Hb].
      * contradiction.
      * left. now apply Hfirst.
      * right. now apply Hfirst.
      * now apply Hcompl.
Qed.

Lemma single_total (rt : PyRuntime) (m : Matcher) (c : string)
  (da dy : list string) (ok : nat -> nat -> Prop)
  (mapper : list (value * rowset)) :
  dict_get String.eqb c (reverse m) = Some mapper ->
  (forall v rows, In (v, rows) mapper -> NoDup rows) ->
  (forall v rows id1 valid,
     In (v, rows) mapper -> In id1 rows -> incl valid rows ->
     exists valid',
       _filter_diffby m id1 da dy valid = Ok valid'
       /\ forall x, In x valid' <-> In x valid /\ ok id1 x) ->
  exists pairs,
    _get_all_pairs_single rt m c da dy = Ok pairs
    /\ (forall a b,
          In (a, b) (all_pairs pairs) ->
          a <> b /\ ok a b
          /\ exists v rows, In (v, rows) mapper /\ In a rows /\ In b rows)
    /\ (forall v rows a b,
          In (v, rows) mapper -> In a rows -> In b rows -> a <> b ->
          ok a b -> ok b a ->
          In (a, b) (all_pairs pairs) \/ In (b, a) (all_pairs pairs)).
Proof.
  intros Hm Hnd Hf. unfold _get_all_pairs_single, get_reverse. rewrite Hm.
  simpl. clear Hm.
  assert (forall acc,
    exists pairs,
      foldM (fun pairs item =>
               single_group rt m (KVal (fst item)) (snd item) da dy
                 (set_iter rt (snd item)) [] pairs) mapper acc = Ok pairs
      /\ (forall a b,
            In (a, b) (all_pairs pairs) ->
            In (a, b) (all_pairs acc)
            \/ (a <> b /\ ok a b
                /\ exists v rows,
                     In (v, rows) mapper /\ In a rows /\ In b rows))
      /\ (forall p, In p (all_pairs acc) -> In p (all_pairs pairs))
      /\ (forall v rows a b,
            In (v, rows) mapper -> In a rows -> In b rows -> a <> b ->
            ok a b -> ok b a ->
            In (a, b) (all_pairs pairs) \/ In (b, a) (all_pairs pairs)))
    as Hfold.
  { induction mapper as [|[v rows] mapper IH]; intro acc.
    - exists acc. simpl. repeat split; auto. intros v rows a b [].
    - destruct (single_group_total rt m (KVal v) rows da dy ok
                  (set_iter rt rows)
                  (fun i valid H =>
                     Hf v rows i valid (or_introl eq_refl)
                        (proj1 (set_iter_In rt rows i) H))
                  (fun x H => proj1 (set_iter_In rt rows x) H)
                  (set_iter_NoDup rt rows (Hnd v rows (or_introl eq_refl)))
                  [] acc (fun x _ H => H))
        as (r & Hr & Hsound & Hkeep & Hcompl).
      destruct (IH (fun v0 rows0 H => Hnd v0 rows0 (or_intror H))
                   (fun v0 rows0 i valid H =>
                      Hf v0 rows0 i valid (or_intror H)) r)
        as (pairs & Hp & Hsound' & Hkeep' & Hcompl').
      exists pairs. simpl. rewrite Hr. simpl. split; [exact Hp|].
      split; [|split].
      + intros a b Hab.
        destruct (Hsound' a b Hab) as [H|(Hne & Hok & v0 & rows0 & H)].
        * destruct (Hsound a b H) as [H'|(Ha & Hb & Hne & Hok)]; [auto|].
          right. split; [exact Hne|]. split; [exact Hok|].
          exists v, rows. split; [now left|auto].
        * right. split; [exact Hne|]. split; [exact Hok|].
          exists v0, rows0. split; [now right|tauto].
      + intros p H. now apply Hkeep', Hkeep.
      + intros v0 rows0 a b [E|Hin] Ha Hb Hne Hok1 Hok2.
        * injection E as <- <-.
          destruct (Hcompl a b (proj2 (set_iter_In rt rows a) Ha)
                      (proj2 (set_iter_In rt rows b) Hb) Hne Hok1 Hok2)
            as [H|H]; [left|right]; now apply Hkeep'.
        * now apply (Hcompl' v0 rows0). }
  destruct (Hfold []) as (pairs & Hp & Hsound & _ & Hcompl).
  exists pairs. split; [exact Hp|]. split; [|exact Hcompl].
  intros a b Hab. destruct (Hsound a b Hab) as [[]|H]. exact H.
Qed.
